(** * Task lifecycle coordinator of the video back end

    A shallow embedding of [app/video.py], [app/minio_client.py],
    [app/google_auth.py] and [app/ai.py].  The request handlers are Python
    functions that mutate module-level state (the [TASKS] dictionary, the
    MinIO bucket, the Redis list, scratch files), that send requests for the
    provider's result files, and that may raise; they are
    embedded as computations in a state-and-exception monad over a [World]
    record.  Each handler is run atomically: the interleaving of concurrent
    requests is not part of this model. *)

From stdpp Require Import gmap strings list fin_maps sorting.
From Stdlib Require Import ZArith Ascii String.

Local Open Scope string_scope.
Set Warnings "-register-all,-clear-no-such-hyp".

(** ** Python values and control flow *)

Module Py.

(** The exception classes that the modelled code raises or catches.  All of
    them derive from [Exception], so a bare [except Exception] catches every
    constructor. *)
Inductive exn : Type :=
  | AttributeError            (* [.get] on a value that is not a dict *)
  | TypeError                 (* unhashable key, value not subscriptable *)
  | KeyError
  | IndexError
  | HTTPError                 (* httpx transport error or [raise_for_status] *)
  | S3Error (code : string)   (* minio: NoSuchBucket, NoSuchKey, ... *)
  | RedisError
  | FileNotFoundError
  | CalledProcessError        (* [subprocess.run(..., check=True)] *)
  | SQLAlchemyError
  | GoogleApiError
  | RuntimeError (msg : string)
  | PlainException (msg : string)
  | HTTPException (status_code : Z) (detail : string).

Inductive outcome (A : Type) : Type :=
  | Returned (a : A)
  | Raised (e : exn).
Arguments Returned {A} a.
Arguments Raised {A} e.

Definition is_raised {A} (o : outcome A) : bool :=
  match o with Returned _ => false | Raised _ => true end.

(** JSON documents as [json.loads] builds them, restricted to the shapes the
    provider's documents are made of: null, strings, lists and dicts. *)
Inductive json : Type :=
  | JNull
  | JStr (s : string)
  | JArr (items : list json)
  | JObj (fields : list (string * json)).

(** Truth value of a Python object ([not x] is its negation). *)
Definition truthy (v : json) : bool :=
  match v with
  | JNull => false
  | JStr s => negb (String.eqb s "")
  | JArr l => match l with [] => false | _ => true end
  | JObj l => match l with [] => false | _ => true end
  end.

Fixpoint assoc (k : string) (l : list (string * json)) : option json :=
  match l with
  | [] => None
  | (k', v) :: l' => if String.eqb k k' then Some v else assoc k l'
  end.

(** [d.get(k, default)]: only dicts have a [get] method. *)
Definition dict_get (d : json) (k : string) (default : json) : outcome json :=
  match d with
  | JObj l => Returned (match assoc k l with Some v => v | None => default end)
  | _ => Raised AttributeError
  end.

(** [v[0]] *)
Definition index0 (v : json) : outcome json :=
  match v with
  | JArr (x :: _) => Returned x
  | JArr [] => Raised IndexError
  | JStr (String c _) => Returned (JStr (String c ""))
  | JStr "" => Raised IndexError
  | JObj _ => Raised KeyError
  | JNull => Raised TypeError
  end.

(** *** Strings *)

(** [s.split(sep)] for a one-character separator. *)
Fixpoint split (sep : ascii) (s : string) : list string :=
  match s with
  | "" => [""]
  | String c s' =>
      if Ascii.eqb c sep then "" :: split sep s'
      else match split sep s' with
           | h :: t => String c h :: t
           | [] => [String c ""]
           end
  end.

(** [l[-1]] on a list of strings that is never empty here. *)
Definition last_item (l : list string) : string := List.last l "".

(** [s.endswith(suffix)] *)
Fixpoint endswith (s suffix : string) : bool :=
  if String.eqb s suffix then true
  else match s with
       | "" => false
       | String _ s' => endswith s' suffix
       end.

(** [s.replace(old, new)] for a non-empty [old]: the occurrences are found
    from left to right and do not overlap.  [skip] counts the characters of
    the occurrence being replaced that are still to be dropped. *)
Fixpoint replace_go (old new : string) (skip : nat) (s : string) : string :=
  match s with
  | "" => ""
  | String c s' =>
      match skip with
      | S k => replace_go old new k s'
      | O =>
          if String.prefix old s
          then new +:+ replace_go old new (String.length old - 1) s'
          else String c (replace_go old new 0 s')
      end
  end.

Definition replace (s old new : string) : string := replace_go old new 0 s.

(** [sorted(l, reverse=True)] on strings: a stable insertion into descending
    order. *)
Fixpoint insert_desc (x : string) (l : list string) : list string :=
  match l with
  | [] => [x]
  | y :: l' => if String.ltb y x then x :: l else y :: insert_desc x l'
  end.

Definition sorted_reverse (l : list string) : list string :=
  foldr insert_desc [] l.

End Py.
Import Py.

(** ** The state the handlers share *)

(** The four literals that the code ever stores under ["status"]. *)
Inductive Status : Type := QUEUED | QUEUED_FOR_AI | FAILED | DONE.

Global Instance Status_eq_dec : EqDecision Status.
Proof. solve_decision. Defined.

(** A value of the [TASKS] dictionary: [{"status": ..., "user_id": ...}]. *)
Record Task : Type := mkTask { status : Status; user_id : string }.

Definition set_status (s : Status) (t : Task) : Task :=
  {| status := s; user_id := user_id t |}.

(** The job descriptor that [video_callback] serialises onto the Redis list. *)
Record Job : Type := mkJob {
  job_task_id : string;
  job_user_id : string;
  input_key : string;
  output_key : string
}.

(** Time stamps as [datetime] has them: the wall-clock fields (here as the
    seconds they denote) and an optional zone, absent for a naive value. *)
Record datetime : Type := mkDatetime {
  wall : Z;
  tzinfo : option Z            (* utcoffset in seconds *)
}.

(** [timezone.utc] *)
Definition utc : Z := 0.

(** [d.replace(tzinfo=tz)]: same wall-clock fields, new zone. *)
Definition replace_tzinfo (d : datetime) (tz : Z) : datetime :=
  {| wall := wall d; tzinfo := Some tz |}.

(** A row of [SELECT access_token, refresh_token, expires_at FROM oauth_tokens]. *)
Record TokenRow : Type := mkTokenRow {
  access_token : string;
  refresh_token : string;
  expires_at : option datetime     (* NULL, naive or zone-aware *)
}.

(** [google.oauth2.credentials.Credentials]; a keyword that the caller leaves
    out keeps the constructor's default, which is [None]. *)
Record Credentials : Type := mkCredentials {
  token : string;
  cred_refresh_token : string;
  token_uri : string;
  client_id : option string;
  client_secret : option string;
  scopes : list string;
  expiry : option datetime
}.

Record World : Type := mkWorld {
  TASKS : gmap string Task;               (* video.TASKS *)
  bucket : option (gmap string string);   (* objects of MINIO_BUCKET, if it exists *)
  redis2 : list Job;                      (* REDIS2_QUEUE, most recent push first *)
  scratch : gmap positive string;         (* files made by tempfile, by name, with contents *)
  downloads : list json                   (* what [client.get] was called with, most recent first *)
}.

Definition with_TASKS (f : gmap string Task → gmap string Task) (w : World) : World :=
  {| TASKS := f (TASKS w); bucket := bucket w; redis2 := redis2 w; scratch := scratch w;
     downloads := downloads w |}.
Definition with_bucket (b : option (gmap string string)) (w : World) : World :=
  {| TASKS := TASKS w; bucket := b; redis2 := redis2 w; scratch := scratch w;
     downloads := downloads w |}.
Definition with_redis2 (f : list Job → list Job) (w : World) : World :=
  {| TASKS := TASKS w; bucket := bucket w; redis2 := f (redis2 w); scratch := scratch w;
     downloads := downloads w |}.
Definition with_scratch (f : gmap positive string → gmap positive string) (w : World) : World :=
  {| TASKS := TASKS w; bucket := bucket w; redis2 := redis2 w; scratch := f (scratch w);
     downloads := downloads w |}.
Definition with_downloads (f : list json → list json) (w : World) : World :=
  {| TASKS := TASKS w; bucket := bucket w; redis2 := redis2 w; scratch := scratch w;
     downloads := f (downloads w) |}.

(** What the services outside the process answer during one request.  A
    [false] flag makes the corresponding client call raise. *)
Record Env : Type := mkEnv {
  kie_post : string → outcome json;       (* POST KIE_API_URL, raise_for_status, r.json() *)
  http_get : json → outcome string;       (* GET url, raise_for_status, r.content *)
  bucket_exists_ok : bool;
  make_bucket_ok : bool;
  fput_object_ok : bool;
  get_object_ok : bool;
  list_objects_ok : bool;
  lpush_ok : bool;
  ffmpeg : string → outcome string;       (* first frame after one second of a video *)
  oauth_tokens : string → outcome (option TokenRow);  (* the SELECT by user_id *)
  GOOGLE_CLIENT_ID : option string;
  GOOGLE_CLIENT_SECRET : option string;
  youtube_insert : Credentials → string → string → string → outcome json
                                          (* videos().insert(title, description, media).execute() *)
}.

(** ** The monad of handlers: state that survives an exception *)

Definition M (A : Type) : Type := World → outcome A * World.

Global Instance M_ret : MRet M := λ A a w, (Returned a, w).
Global Instance M_bind : MBind M := λ A B f m w,
  match m w with
  | (Returned a, w') => f a w'
  | (Raised e, w') => (Raised e, w')
  end.

Definition raise {A} (e : exn) : M A := λ w, (Raised e, w).
Definition get_world : M World := λ w, (Returned w, w).
Definition modify (f : World → World) : M () := λ w, (Returned (), f w).
Definition lift {A} (o : outcome A) : M A := λ w, (o, w).

(** [try: body except Exception as e: handler e] *)
Definition try_except {A} (body : M A) (handler : exn → M A) : M A := λ w,
  match body w with
  | (Returned a, w') => (Returned a, w')
  | (Raised e, w') => handler e w'
  end.

(** [try: body finally: cleanup]: the cleanup runs on every exit of the body,
    and an exception of the cleanup replaces the body's result. *)
Definition try_finally {A} (body : M A) (cleanup : M ()) : M A := λ w,
  match body w with
  | (r, w') =>
      match cleanup w' with
      | (Returned _, w'') => (r, w'')
      | (Raised e, w'') => (Raised e, w'')
      end
  end.

(** [if not flag: raise e] *)
Definition unless (flag : bool) (e : exn) : M () :=
  if flag then mret () else raise e.

(** *** Scratch files *)

(** [tempfile.NamedTemporaryFile(delete=False, suffix=...).name]: an empty
    file under a name no existing file has. *)
Definition NamedTemporaryFile : M positive :=
  w ← get_world;
  let p := fresh (dom (scratch w)) in
  modify (with_scratch (insert p ""));; mret p.

(** [with open(p, "wb") as f: f.write(content)] *)
Definition write_file (p : positive) (content : string) : M () :=
  modify (with_scratch (insert p content)).

Definition path_exists (p : positive) : M bool :=
  w ← get_world; mret (bool_decide (is_Some (scratch w !! p))).

(** [os.remove(p)] *)
Definition os_remove (p : positive) : M () :=
  w ← get_world;
  match scratch w !! p with
  | Some _ => modify (with_scratch (delete p))
  | None => raise FileNotFoundError
  end.

(** Reading a file that is not there fails like [os.remove] does. *)
Definition read_file (p : positive) : M string :=
  w ← get_world;
  match scratch w !! p with
  | Some c => mret c
  | None => raise FileNotFoundError
  end.

(** ** app/minio_client.py *)

Module MinioClient.
Section client.
Variable env : Env.

(** The calls of the [minio] package that the module uses, on the one
    bucket [MINIO_BUCKET]. *)
Definition bucket_exists : M bool :=
  unless (bucket_exists_ok env) (S3Error "Unavailable");;
  w ← get_world; mret (bool_decide (is_Some (bucket w))).

Definition make_bucket : M () :=
  unless (make_bucket_ok env) (S3Error "Unavailable");;
  w ← get_world;
  match bucket w with
  | Some _ => raise (S3Error "BucketAlreadyOwnedByYou")
  | None => modify (with_bucket (Some ∅))
  end.

Definition fput_object (key : string) (file_path : positive) : M () :=
  content ← read_file file_path;
  unless (fput_object_ok env) (S3Error "Unavailable");;
  w ← get_world;
  match bucket w with
  | Some objs => modify (with_bucket (Some (<[key := content]> objs)))
  | None => raise (S3Error "NoSuchBucket")
  end.

Definition get_object (key : string) : M string :=
  unless (get_object_ok env) (S3Error "Unavailable");;
  w ← get_world;
  match bucket w with
  | Some objs =>
      match objs !! key with
      | Some content => mret content
      | None => raise (S3Error "NoSuchKey")
      end
  | None => raise (S3Error "NoSuchBucket")
  end.

(** [list_objects(MINIO_BUCKET, prefix=..., recursive=True)]: the names of
    all objects whose key starts with the prefix. *)
Definition list_objects (prefix : string) : M (list string) :=
  unless (list_objects_ok env) (S3Error "Unavailable");;
  w ← get_world;
  match bucket w with
  | Some objs =>
      mret (filter (λ k, String.prefix prefix k = true) (elements (dom objs)))
  | None => raise (S3Error "NoSuchBucket")
  end.

Definition ensure_bucket : M () :=
  b ← bucket_exists;
  if negb b then make_bucket else mret ().

Definition video_filename (task_id : string) (processed : bool) : string :=
  if processed then task_id +:+ "_processed.mp4" else task_id +:+ ".mp4".

Definition upload_video (user_id task_id : string) (file_path : positive)
    (processed : bool) : M () :=
  ensure_bucket;;
  let filename := video_filename task_id processed in
  fput_object (user_id +:+ "/" +:+ filename) file_path.

Definition upload_thumbnail (user_id task_id : string) (thumb_path : positive) : M () :=
  ensure_bucket;;
  fput_object (user_id +:+ "/" +:+ task_id +:+ ".jpg") thumb_path.

Definition get_video_stream (user_id task_id : string) (processed : bool) : M string :=
  let filename := video_filename task_id processed in
  get_object (user_id +:+ "/" +:+ filename).

Definition get_thumbnail_stream (user_id task_id : string) : M string :=
  get_object (user_id +:+ "/" +:+ task_id +:+ ".jpg").

(** The loop of [list_user_videos] over the listed object names. *)
Fixpoint collect_mp4 (object_names : list string) : list string :=
  match object_names with
  | [] => []
  | object_name :: rest =>
      let name := last_item (split "/" object_name) in
      if endswith name ".mp4"
      then replace name ".mp4" "" :: collect_mp4 rest
      else collect_mp4 rest
  end.

Definition list_user_videos (user_id : string) : M (list string) :=
  objects ← list_objects (user_id +:+ "/");
  mret (sorted_reverse (collect_mp4 objects)).

End client.
End MinioClient.

(** ** app/google_auth.py *)

Module GoogleAuth.

Definition GOOGLE_TOKEN_URL : string := "https://oauth2.googleapis.com/token".

Definition YOUTUBE_SCOPES : list string :=
  ["https://www.googleapis.com/auth/youtube.upload"].

(** The block marked as the time-zone fix: the value of the local variable
    [expiry] after it. *)
Definition expiry_of (expires_at : option datetime) : option datetime :=
  match expires_at with
  | Some d =>
      match tzinfo d with
      | None => Some (replace_tzinfo d utc)
      | Some _ => Some d
      end
  | None => None
  end.

(** The client that [build("youtube", "v3", credentials=creds)] returns. *)
Record Service : Type := mkService { credentials : Credentials }.

Definition get_youtube_service (env : Env) (user_id : string) : outcome Service :=
  match oauth_tokens env user_id with
  | Raised e => Raised e
  | Returned None => Raised (PlainException "Google OAuth token not found")
  | Returned (Some row) =>
      let expiry := expiry_of (expires_at row) in
      let creds :=
        {| token := access_token row;
           cred_refresh_token := refresh_token row;
           token_uri := GOOGLE_TOKEN_URL;
           client_id := GOOGLE_CLIENT_ID env;
           client_secret := GOOGLE_CLIENT_SECRET env;
           scopes := YOUTUBE_SCOPES;
           expiry := None          (* no [expiry=] keyword in the call *) |} in
      Returned {| credentials := creds |}
  end.

End GoogleAuth.

(** ** app/video.py *)

Module Video.

(** The bodies of the JSON responses. *)
Inductive response : Type :=
  | Ack                                          (* {"code": 200} *)
  | TaskStatus (task_id : string) (st : Status)  (* {"task_id": ..., "status": ...} *)
  | Stream (media_type content : string)         (* StreamingResponse *)
  | Uploaded (youtube_video_id : json).          (* {"status": "UPLOADED", ...} *)

(** [YouTubeUploadRequest]; a [VideoGenerateRequest] is its [prompt]. *)
Record YouTubeUploadRequest : Type := mkYouTubeUploadRequest {
  yt_task_id : string;
  yt_type : string;
  yt_title : string
}.

Section handlers.
Variable env : Env.

(** [TASKS.get(task_id)]: a list or dict is not hashable; any other value
    that is not a string equals no key of [TASKS]. *)
Definition TASKS_get (task_id : json) : M (option (string * Task)) :=
  match task_id with
  | JStr tid => w ← get_world; mret ((λ t, (tid, t)) <$> TASKS w !! tid)
  | JNull => mret None
  | JArr _ | JObj _ => raise TypeError
  end.

(** [task["status"] = st], where [task] is the dict stored under [tid]. *)
Definition store_status (tid : string) (st : Status) : M () :=
  modify (with_TASKS (alter (set_status st) tid)).

(** [task["status"]] *)
Definition load_status (tid : string) : M Status :=
  w ← get_world;
  match TASKS w !! tid with
  | Some t => mret (status t)
  | None => raise KeyError
  end.

(** [redis2.lpush(REDIS2_QUEUE, json.dumps(job))] *)
Definition lpush (job : Job) : M () :=
  unless (lpush_ok env) RedisError;;
  modify (with_redis2 (cons job)).

(** POST /generate *)
Definition generate_video (prompt : string) (user_sub : string) : M response :=
  let user_id := user_sub in
  data ← lift (kie_post env prompt);
  d ← lift (dict_get data "data" (JObj []));
  task_id ← lift (dict_get d "taskId" JNull);
  if negb (truthy task_id) then raise (HTTPException 502 "No taskId")
  else
    match task_id with
    | JStr tid =>
        modify (with_TASKS (insert tid {| status := QUEUED; user_id := user_id |}));;
        mret (TaskStatus tid QUEUED)
    | _ => raise TypeError          (* [TASKS[task_id] = ...] with a list or dict *)
    end.

(** The first three statements of [video_callback]: [task_id] and [urls]. *)
Definition callback_fields (payload : json) : outcome (json * json) :=
  match dict_get payload "data" (JObj []) with
  | Raised e => Raised e
  | Returned data =>
      match dict_get data "taskId" JNull with
      | Raised e => Raised e
      | Returned task_id =>
          match dict_get data "info" (JObj []) with
          | Raised e => Raised e
          | Returned info =>
              match dict_get info "resultUrls" (JArr []) with
              | Raised e => Raised e
              | Returned urls => Returned (task_id, urls)
              end
          end
      end
  end.

(** [client.get(url)], [raise_for_status()], [r.content]: the request is
    sent, whatever comes back. *)
Definition client_get (url : json) : M string :=
  modify (with_downloads (cons url));;
  lift (http_get env url).

(** What [client.get(urls[0])] gives: an empty [urls] sends no request. *)
Definition download (urls : json) : outcome string :=
  match index0 urls with
  | Raised e => Raised e
  | Returned url => http_get env url
  end.

(** The [try] block of [video_callback]. *)
Definition callback_body (tid user_id : string) (urls : json) (tmp_video : positive) : M () :=
  url ← lift (index0 urls);
  content ← client_get url;
  write_file tmp_video content;;
  MinioClient.upload_video env user_id tid tmp_video false;;
  let job :=
    {| job_task_id := tid;
       job_user_id := user_id;
       input_key := user_id +:+ "/" +:+ tid +:+ ".mp4";
       output_key := user_id +:+ "/" +:+ tid +:+ "_processed.mp4" |} in
  lpush job;;
  store_status tid QUEUED_FOR_AI.

(** POST /callback *)
Definition video_callback (payload : json) : M response :=
  '(task_id, urls) ← lift (callback_fields payload);
  task ← TASKS_get task_id;
  match task with
  | None => mret Ack
  | Some (tid, t) =>
      if negb (truthy urls) then mret Ack
      else
        let user_id := user_id t in
        tmp_video ← NamedTemporaryFile;
        try_finally
          (try_except
             (callback_body tid user_id urls tmp_video)
             (λ e, store_status tid FAILED))
          (os_remove tmp_video);;
        mret Ack
  end.

(** GET /status/{task_id} *)
Definition get_status (task_id : string) : M response :=
  w ← get_world;
  match TASKS w !! task_id with
  | None => mret (TaskStatus task_id DONE)
  | Some task =>
      if bool_decide (status task = FAILED) then mret (TaskStatus task_id FAILED)
      else
        try_except
          (let user_id := user_id task in
           if truthy (JStr user_id) then
             names ← MinioClient.list_user_videos env user_id;
             if bool_decide (task_id +:+ "_processed" ∈ names)
             then store_status task_id DONE
             else mret ()
           else mret ())
          (λ _, mret ());;
        st ← load_status task_id;
        mret (TaskStatus task_id st)
  end.

(** [subprocess.run(["ffmpeg", ..., "-i", tmp_video, ..., tmp_thumb], check=True)] *)
Definition run_ffmpeg (tmp_video tmp_thumb : positive) : M () :=
  video ← read_file tmp_video;
  frame ← lift (ffmpeg env video);
  write_file tmp_thumb frame.

(** The [except] block of [get_thumbnail]: make the thumbnail, store it and
    open it. *)
Definition make_thumbnail (user_id task_id : string) : M string :=
  tmp_video ← NamedTemporaryFile;
  tmp_thumb ← NamedTemporaryFile;
  vobj ← MinioClient.get_video_stream env user_id task_id false;
  write_file tmp_video vobj;;
  run_ffmpeg tmp_video tmp_thumb;;
  MinioClient.upload_thumbnail env user_id task_id tmp_thumb;;
  obj ← MinioClient.get_thumbnail_stream env user_id task_id;
  os_remove tmp_video;;
  os_remove tmp_thumb;;
  mret obj.

(** GET /thumb/{task_id}.jpg *)
Definition get_thumbnail (task_id : string) (user_sub : string) : M response :=
  let user_id := user_sub in
  obj ← try_except
          (MinioClient.get_thumbnail_stream env user_id task_id)
          (λ _, make_thumbnail user_id task_id);
  mret (Stream "image/jpeg" obj).

(** The [try] block of [upload_youtube]. *)
Definition upload_body (body : YouTubeUploadRequest) (user_id : string)
    (tmp_video : positive) : M response :=
  let task_id := yt_task_id body in
  obj ← MinioClient.get_video_stream env user_id task_id
          (String.eqb (yt_type body) "processed");
  write_file tmp_video obj;;
  youtube ← lift (GoogleAuth.get_youtube_service env user_id);
  media ← read_file tmp_video;
  resp ← lift (youtube_insert env (GoogleAuth.credentials youtube)
                 (yt_title body)
                 ("Generated by Justic AI" +:+ String "010" "" +:+ "Task ID: " +:+ task_id)
                 media);
  id ← lift (dict_get resp "id" JNull);
  mret (Uploaded id).

(** [if os.path.exists(p): os.remove(p)] *)
Definition remove_if_exists (p : positive) : M () :=
  present ← path_exists p;
  if present : bool then os_remove p else mret ().

(** POST /upload/youtube *)
Definition upload_youtube (body : YouTubeUploadRequest) (user_sub : string) : M response :=
  let user_id := user_sub in
  let video_type := yt_type body in
  if negb (String.eqb video_type "original" || String.eqb video_type "processed")
  then raise (HTTPException 400 "Invalid video type")
  else
    tmp_video ← NamedTemporaryFile;
    try_finally
      (try_except
         (upload_body body user_id tmp_video)
         (λ e, raise (HTTPException 500 "YouTube upload failed")))
      (remove_if_exists tmp_video).

(** One value of the [videos] dict of [list_videos]. *)
Record VideoEntry : Type := mkVideoEntry {
  ve_task_id : string;
  has_original : bool;
  has_processed : bool
}.

(** A dict in insertion order, which is the order of [videos.values()]. *)
Fixpoint dict_has (k : string) (d : list (string * VideoEntry)) : bool :=
  match d with
  | [] => false
  | (k', _) :: d' => String.eqb k k' || dict_has k d'
  end.

(** [d.setdefault(k, v)] *)
Definition setdefault (k : string) (v : VideoEntry)
    (d : list (string * VideoEntry)) : list (string * VideoEntry) :=
  if dict_has k d then d else d ++ [(k, v)].

(** [d[k][field] = True], as a change [f] of the entry under [k]. *)
Fixpoint dict_update (k : string) (f : VideoEntry → VideoEntry)
    (d : list (string * VideoEntry)) : list (string * VideoEntry) :=
  match d with
  | [] => []
  | (k', v) :: d' =>
      if String.eqb k k' then (k', f v) :: d' else (k', v) :: dict_update k f d'
  end.

Definition set_has_processed (v : VideoEntry) : VideoEntry :=
  {| ve_task_id := ve_task_id v; has_original := has_original v; has_processed := true |}.

Definition set_has_original (v : VideoEntry) : VideoEntry :=
  {| ve_task_id := ve_task_id v; has_original := true; has_processed := has_processed v |}.

(** The body of the loop of [list_videos]. *)
Definition list_videos_step (videos : list (string * VideoEntry)) (name : string)
    : list (string * VideoEntry) :=
  let base := replace name "_processed" "" in
  let videos :=
    setdefault base
      {| ve_task_id := base; has_original := false; has_processed := false |} videos in
  if endswith name "_processed"
  then dict_update base set_has_processed videos
  else dict_update base set_has_original videos.

(** GET /list: the list under ["videos"]. *)
Definition list_videos (user_sub : string) : M (list VideoEntry) :=
  let user_id := user_sub in
  names ← MinioClient.list_user_videos env user_id;
  mret (map snd (fold_left list_videos_step names [])).

(** GET /stream/{task_id}: the generator passes the chunks of the object on. *)
Definition stream_video (task_id type user_sub : string) : M response :=
  let user_id := user_sub in
  let processed := String.eqb type "processed" in
  obj ← MinioClient.get_video_stream env user_id task_id processed;
  mret (Stream "video/mp4" obj).

End handlers.

(** The three operations of the coordinator, as requests of one process. *)
Inductive request : Type :=
  | Submit (prompt user_sub : string)
  | HandleCallback (payload : json)
  | QueryStatus (task_id : string).

Definition serve (env : Env) (req : request) : M response :=
  match req with
  | Submit prompt user_sub => generate_video env prompt user_sub
  | HandleCallback payload => video_callback env payload
  | QueryStatus task_id => get_status env task_id
  end.

(** The world after a sequence of requests, each with the answers the
    outside services gave during it.  A request that raises is answered
    with an error and leaves the world as the handler left it. *)
Fixpoint run (trace : list (Env * request)) (w : World) : World :=
  match trace with
  | [] => w
  | (env, req) :: rest => run rest (serve env req w).2
  end.

(** The module as loaded: [TASKS = {}]; the bucket, the queue and the
    scratch directory are whatever they are outside. *)
Definition loaded (w : World) : World := with_TASKS (λ _, ∅) w.

End Video.

(** ** app/ai.py *)

Module Ai.

(** Modelled from the spec: the schema of the table [ai_final_videos] is not
    in the repository.  A row has the columns of the finalized video record
    and [video_key] is unique, which is what the conflict target of the
    INSERT statement needs. *)
Record FinalVideo : Type := mkFinalVideo {
  video_key : string;
  fv_user_id : string;
  title : option string;
  description : option string;
  selected_at : Z;
  youtube_uploaded : bool;
  youtube_video_id : option string;
  youtube_uploaded_at : option Z
}.

(** What the database does during one session. *)
Record Session : Type := mkSession {
  execute_ok : bool;      (* [session.execute] does not raise SQLAlchemyError *)
  commit_ok : bool;       (* [session.commit] does not raise SQLAlchemyError *)
  now : Z;                (* the clock behind the column defaults *)
  error_text : string     (* [str(e)] of the SQLAlchemyError of a call that raises *)
}.

Definition has_key (k : string) (table : list FinalVideo) : bool :=
  existsb (λ r, String.eqb (video_key r) k) table.

(** [INSERT INTO ai_final_videos (video_key, user_id, title, description)
    VALUES (...) ON CONFLICT (video_key) DO NOTHING] *)
Definition insert_on_conflict_do_nothing (s : Session)
    (k user_id : string) (ttl descr : option string)
    (table : list FinalVideo) : list FinalVideo :=
  if has_key k table then table
  else table ++
       [{| video_key := k; fv_user_id := user_id; title := ttl;
           description := descr; selected_at := now s;
           youtube_uploaded := false; youtube_video_id := None;
           youtube_uploaded_at := None |}].

(** [insert_final_video]: the statement runs in a transaction that is
    committed, or rolled back when SQLAlchemy raises. *)
Definition insert_final_video (s : Session)
    (k user_id : string) (ttl descr : option string)
    (table : list FinalVideo) : outcome () * list FinalVideo :=
  if execute_ok s then
    let pending := insert_on_conflict_do_nothing s k user_id ttl descr table in
    if commit_ok s then (Returned (), pending)
    else (Raised (RuntimeError ("[ai] insert_final_video failed: " +:+ error_text s)), table)
  else (Raised (RuntimeError ("[ai] insert_final_video failed: " +:+ error_text s)), table).

(** [UPDATE ai_final_videos SET youtube_uploaded = TRUE, youtube_video_id = ...,
    youtube_uploaded_at = now() WHERE video_key = ...] *)
Definition update_uploaded (s : Session) (k youtube_id : string)
    (table : list FinalVideo) : list FinalVideo :=
  map (λ r, if String.eqb (video_key r) k
            then {| video_key := video_key r; fv_user_id := fv_user_id r;
                    title := title r; description := description r;
                    selected_at := selected_at r;
                    youtube_uploaded := true; youtube_video_id := Some youtube_id;
                    youtube_uploaded_at := Some (now s) |}
            else r) table.

(** [result.rowcount] of that statement. *)
Definition rowcount (k : string) (table : list FinalVideo) : nat :=
  List.length (List.filter (λ r, String.eqb (video_key r) k) table).

(** [mark_youtube_uploaded]: the RuntimeError for a statement that matched no
    row is not a SQLAlchemyError, so it leaves the [try] block as it is and
    the session is closed without a commit. *)
Definition mark_youtube_uploaded (s : Session) (k youtube_id : string)
    (table : list FinalVideo) : outcome () * list FinalVideo :=
  if execute_ok s then
    let pending := update_uploaded s k youtube_id table in
    if Nat.eqb (rowcount k table) 0
    then (Raised (RuntimeError "video_key not found"), table)
    else if commit_ok s then (Returned (), pending)
    else (Raised (RuntimeError ("[ai] mark_youtube_uploaded failed: " +:+ error_text s)), table)
  else (Raised (RuntimeError ("[ai] mark_youtube_uploaded failed: " +:+ error_text s)), table).

(** A row of the SELECT of [get_user_library], as a dict. *)
Record LibraryRow : Type := mkLibraryRow {
  lr_video_key : string;
  lr_title : option string;
  lr_description : option string;
  lr_youtube_uploaded : bool;
  lr_youtube_video_id : option string;
  lr_selected_at : Z;
  lr_youtube_uploaded_at : option Z
}.

Definition library_row (r : FinalVideo) : LibraryRow :=
  {| lr_video_key := video_key r; lr_title := title r;
     lr_description := description r; lr_youtube_uploaded := youtube_uploaded r;
     lr_youtube_video_id := youtube_video_id r; lr_selected_at := selected_at r;
     lr_youtube_uploaded_at := youtube_uploaded_at r |}.

(** [ORDER BY selected_at DESC]; rows selected at the same time come in the
    order of the table, where the database may pick any. *)
Fixpoint insert_by_selected_at (r : LibraryRow) (l : list LibraryRow) : list LibraryRow :=
  match l with
  | [] => [r]
  | r' :: l' =>
      if Z.ltb (lr_selected_at r') (lr_selected_at r)
      then r :: l
      else r' :: insert_by_selected_at r l'
  end.

Definition order_by_selected_at_desc (l : list LibraryRow) : list LibraryRow :=
  foldr insert_by_selected_at [] l.

(** [get_user_library]: no [try] block, a SQLAlchemyError goes to the caller. *)
Definition get_user_library (s : Session) (user_id : string)
    (table : list FinalVideo) : outcome (list LibraryRow) :=
  if execute_ok s then
    Returned (order_by_selected_at_desc
                (map library_row
                   (List.filter (λ r, String.eqb (fv_user_id r) user_id) table)))
  else Raised SQLAlchemyError.



End Ai.

(** * Vocabulary of the statements *)

(** ** Outcomes of the steps of a callback *)

(** [upload_video] goes through: the bucket can be looked up, exists or can
    be made, and takes the object. *)
Definition upload_ok (env : Env) (w : World) : bool :=
  bucket_exists_ok env
  && (bool_decide (is_Some (bucket w)) || make_bucket_ok env)
  && fput_object_ok env.

(** Download, upload and publish all go through. *)
Definition callback_succeeds (env : Env) (urls : json) (w : World) : bool :=
  negb (is_raised (Video.download env urls)) && upload_ok env w && lpush_ok env.

(** The requests for a result file that processing [urls] sends: one for
    the first URL, none when there is no first URL. *)
Definition requested (urls : json) : list json :=
  match index0 urls with
  | Returned url => [url]
  | Raised _ => []
  end.

(** The job that a callback for task [tid] of user [uid] publishes. *)
Definition job_of (tid uid : string) : Job :=
  {| job_task_id := tid; job_user_id := uid;
     input_key := uid +:+ "/" +:+ tid +:+ ".mp4";
     output_key := uid +:+ "/" +:+ tid +:+ "_processed.mp4" |}.

(** The task that a delivery names, if [TASKS] has it. *)
Definition known_task (w : World) (task_id : json) : option Task :=
  match task_id with
  | JStr tid => TASKS w !! tid
  | _ => None
  end.

(** Values that can be looked up in a dict at all. *)
Definition hashable (v : json) : bool :=
  match v with
  | JArr _ | JObj _ => false
  | _ => true
  end.

(** ** The storage check of a status query *)

(** What [list_user_videos] answers in a world. *)
Definition listing (env : Env) (w : World) (uid : string) : outcome (list string) :=
  (MinioClient.list_user_videos env uid w).1.

(** The check of [get_status] finds the processed video: the user id is not
    empty, the listing succeeds and has the name [<task_id>_processed]. *)
Definition processed_listed (env : Env) (w : World) (uid tid : string) : bool :=
  truthy (JStr uid) &&
  match listing env w uid with
  | Returned names => bool_decide (tid +:+ "_processed" ∈ names)
  | Raised _ => false
  end.

(** The key under which the worker stores the processed video. *)
Definition processed_key (uid tid : string) : string :=
  uid +:+ "/" +:+ MinioClient.video_filename tid true.

(** The processed video is an object of the bucket. *)
Definition processed_exists (w : World) (uid tid : string) : bool :=
  match bucket w with
  | Some objs => bool_decide (is_Some (objs !! processed_key uid tid))
  | None => false
  end.

(** The character [c] does not occur in [s]. *)
Fixpoint free_of (c : ascii) (s : string) : bool :=
  match s with
  | "" => true
  | String a s' => negb (Ascii.eqb a c) && free_of c s'
  end.

(** The name under which [list_user_videos] lists the object [key]: the last
    segment of its path without ".mp4", if that segment ends in ".mp4". *)
Definition listed_name (key : string) : option string :=
  let name := last_item (split "/" key) in
  if endswith name ".mp4" then Some (replace name ".mp4" "") else None.

(** What is left of [s] after the prefix [p]. *)
Fixpoint strip_prefix (p s : string) : option string :=
  match p with
  | "" => Some s
  | String a p' =>
      match s with
      | "" => None
      | String b s' => if Ascii.eqb a b then strip_prefix p' s' else None
      end
  end.

(** A file name of the documented layout: it has no slash, and if it ends in
    ".mp4" then ".mp4" occurs in it as the extension only, so that deleting
    ".mp4" from it deletes just the extension. *)
Definition plain_name (name : string) : bool :=
  free_of "/" name
  && (negb (endswith name ".mp4") || String.eqb (replace name ".mp4" "" +:+ ".mp4") name).

(** The objects of the user [uid] are laid out as documented: every key
    under the prefix [<uid>/] is [<uid>/<name>] for a plain file name. *)
Definition flat_store (w : World) (uid : string) : bool :=
  match bucket w with
  | Some objs =>
      forallb (λ key, match strip_prefix (uid +:+ "/") key with
                      | Some name => plain_name name
                      | None => true
                      end) (elements (dom objs))
  | None => true
  end.

(** The status query as the specification words it: DONE for an unknown
    task, FAILED verbatim, the stored status when the storage check raises,
    and otherwise DONE exactly when the processed video is in the object
    store. *)
Definition get_status_as_specified : Prop :=
  ∀ env w tid,
    let r := Video.get_status env tid w in
    match TASKS w !! tid with
    | None => r = (Returned (Video.TaskStatus tid DONE), w)
    | Some t =>
        if bool_decide (status t = FAILED)
        then r = (Returned (Video.TaskStatus tid FAILED), w)
        else
          match listing env w (user_id t) with
          | Raised _ => r = (Returned (Video.TaskStatus tid (status t)), w)
          | Returned _ =>
              if processed_exists w (user_id t) tid
              then r.1 = Returned (Video.TaskStatus tid DONE)
                   ∧ TASKS r.2 !! tid = Some (set_status DONE t)
              else r = (Returned (Video.TaskStatus tid (status t)), w)
          end
    end.

(** ** The status machine *)

(** The task id that a submission registers: the provider answers, and its
    answer has a non-empty string under [data.taskId]. *)
Definition submitted_id (env : Env) (prompt : string) : option string :=
  match kie_post env prompt with
  | Returned data =>
      match dict_get data "data" (JObj []) with
      | Returned d =>
          match dict_get d "taskId" JNull with
          | Returned (JStr tid) => if String.eqb tid "" then None else Some tid
          | _ => None
          end
      | Raised _ => None
      end
  | Raised _ => None
  end.

(** The transitions that the specification allows. *)
Inductive specified_step : Status → Status → Prop :=
  | spec_queued_for_ai : specified_step QUEUED QUEUED_FOR_AI
  | spec_implicit_done : specified_step QUEUED DONE
  | spec_failed : specified_step QUEUED_FOR_AI FAILED
  | spec_done : specified_step QUEUED_FOR_AI DONE.

Definition status_machine_as_specified : Prop :=
  ∀ env req w tid t t',
    TASKS w !! tid = Some t →
    TASKS (Video.serve env req w).2 !! tid = Some t' →
    status t' = status t ∨ specified_step (status t) (status t').

(** The transitions of the code: the status of the task [tid], stored as
    [t] in the world [w], after one request.  A submission whose answer
    carries this very id registers it again; a callback for this id with
    result URLs sets the status by the outcome of its steps, whatever the
    status was; a query for this id sets DONE when the task is not FAILED
    and the storage check finds the processed video; everything else leaves
    the status alone. *)
Definition next_status (env : Env) (w : World) (req : Video.request)
    (tid : string) (t : Task) : Status :=
  match req with
  | Video.Submit prompt _ =>
      if bool_decide (submitted_id env prompt = Some tid) then QUEUED else status t
  | Video.HandleCallback payload =>
      match Video.callback_fields payload with
      | Returned (JStr tid', urls) =>
          if String.eqb tid' tid && truthy urls
          then (if callback_succeeds env urls w then QUEUED_FOR_AI else FAILED)
          else status t
      | _ => status t
      end
  | Video.QueryStatus q =>
      if String.eqb q tid && negb (bool_decide (status t = FAILED))
         && processed_listed env w (user_id t) tid
      then DONE else status t
  end.

(** A repeated callback as the specification words it: no job for a task
    that already left QUEUED. *)
Definition no_second_job_as_specified : Prop :=
  ∀ env payload w tid urls t,
    Video.callback_fields payload = Returned (JStr tid, urls) →
    TASKS w !! tid = Some t →
    status t ≠ QUEUED →
    redis2 (Video.video_callback env payload w).2 = redis2 w.





(** ** The task map *)

(** Two task maps with the same keys and the same owners. *)
Definition same_entries (m m' : gmap string Task) : Prop :=
  dom m' = dom m ∧
  ∀ tid t t', m !! tid = Some t → m' !! tid = Some t' → user_id t' = user_id t.

(** The task ids that the submissions of a trace register. *)
Fixpoint registered (trace : list (Env * Video.request)) : gset string :=
  match trace with
  | [] => ∅
  | (env, Video.Submit prompt _) :: rest =>
      match submitted_id env prompt with
      | Some tid => {[tid]} ∪ registered rest
      | None => registered rest
      end
  | _ :: rest => registered rest
  end.

(** ** The table of final videos *)

Definition rows_with_key (k : string) (table : list Ai.FinalVideo) : list Ai.FinalVideo :=
  List.filter (λ r, String.eqb (Ai.video_key r) k) table.

Definition session_ok (s : Ai.Session) : bool := Ai.execute_ok s && Ai.commit_ok s.

(** ** Concrete inputs *)

(** Every outside service answers. *)
Definition env_up : Env :=
  {| kie_post := λ _, Returned (JObj [("data", JObj [("taskId", JStr "abc")])]);
     http_get := λ _, Returned "raw video";
     bucket_exists_ok := true; make_bucket_ok := true; fput_object_ok := true;
     get_object_ok := true; list_objects_ok := true; lpush_ok := true;
     ffmpeg := λ _, Returned "frame";
     oauth_tokens := λ _,
       Returned (Some {| access_token := "at"; refresh_token := "rt";
                         expires_at := Some {| wall := 1700000000; tzinfo := None |} |});
     GOOGLE_CLIENT_ID := Some "client"; GOOGLE_CLIENT_SECRET := Some "secret";
     youtube_insert := λ _ _ _ _, Returned (JObj [("id", JStr "yt1")]) |}.

(** The provider's result cannot be downloaded. *)
Definition env_download_fails : Env :=
  {| kie_post := kie_post env_up;
     http_get := λ _, Raised HTTPError;
     bucket_exists_ok := true; make_bucket_ok := true; fput_object_ok := true;
     get_object_ok := true; list_objects_ok := true; lpush_ok := true;
     ffmpeg := ffmpeg env_up; oauth_tokens := oauth_tokens env_up;
     GOOGLE_CLIENT_ID := None; GOOGLE_CLIENT_SECRET := None;
     youtube_insert := youtube_insert env_up |}.

(** The object store cannot be listed. *)
Definition env_listing_fails : Env :=
  {| kie_post := kie_post env_up;
     http_get := http_get env_up;
     bucket_exists_ok := true; make_bucket_ok := true; fput_object_ok := true;
     get_object_ok := true; list_objects_ok := false; lpush_ok := true;
     ffmpeg := ffmpeg env_up; oauth_tokens := oauth_tokens env_up;
     GOOGLE_CLIENT_ID := None; GOOGLE_CLIENT_SECRET := None;
     youtube_insert := youtube_insert env_up |}.

Definition task_abc (s : Status) : Task := {| status := s; user_id := "u1" |}.

(** Task ["abc"] of user ["u1"] in a given status, nothing stored yet. *)
Definition world_abc (s : Status) : World :=
  {| TASKS := {["abc" := task_abc s]}; bucket := Some ∅; redis2 := []; scratch := ∅;
     downloads := [] |}.

(** The same task with both of its videos in the bucket. *)
Definition world_processed (s : Status) : World :=
  {| TASKS := {["abc" := task_abc s]};
     bucket := Some (<["u1/abc_processed.mp4" := "processed video"]>
                       {["u1/abc.mp4" := "raw video"]});
     redis2 := []; scratch := ∅; downloads := [] |}.

(** The same task, with a processed video of that name in a folder below
    the prefix of the user and none directly under it. *)
Definition world_nested : World :=
  {| TASKS := {["abc" := task_abc QUEUED_FOR_AI]};
     bucket := Some {["u1/old/abc_processed.mp4" := "old video"]};
     redis2 := []; scratch := ∅; downloads := [] |}.

(** A task whose id has ".mp4" in it, with its processed video. *)
Definition world_dotted : World :=
  {| TASKS := {["a.mp4" := task_abc QUEUED_FOR_AI]};
     bucket := Some {["u1/a.mp4_processed.mp4" := "processed video"]};
     redis2 := []; scratch := ∅; downloads := [] |}.

(** A task registered for the empty user id, with its processed video. *)
Definition world_no_user : World :=
  {| TASKS := {["abc" := {| status := QUEUED_FOR_AI; user_id := "" |}]};
     bucket := Some {["/abc_processed.mp4" := "processed video"]};
     redis2 := []; scratch := ∅; downloads := [] |}.

(** The body of a callback of the provider. *)
Definition delivery (task_id : string) (urls : list json) : json :=
  JObj [("data", JObj [("taskId", JStr task_id);
                       ("info", JObj [("resultUrls", JArr urls)])])].

Definition payload_abc : json := delivery "abc" [JStr "https://kie.example/v.mp4"].



Definition session_up : Ai.Session :=
  {| Ai.execute_ok := true; Ai.commit_ok := true; Ai.now := 1700000000;
     Ai.error_text := "" |}.

(** ** Objects, listings and dicts *)

(** The key of a video of a task in the bucket. *)
Definition video_key_of (uid tid : string) (processed : bool) : string :=
  uid +:+ "/" +:+ MinioClient.video_filename tid processed.

(** The key of the thumbnail of a task. *)
Definition thumbnail_key (uid tid : string) : string := uid +:+ "/" +:+ tid +:+ ".jpg".

(** The content of an object, if the bucket and the object exist. *)
Definition bucket_lookup (w : World) (key : string) : option string :=
  match bucket w with
  | Some objs => objs !! key
  | None => None
  end.

(** A callback body whose fields can be read and whose task id can be looked
    up in a dict. *)
Definition well_formed (payload : json) : bool :=
  match Video.callback_fields payload with
  | Returned (task_id, _) => hashable task_id
  | Raised _ => false
  end.

(** The test of [upload_youtube] on the type of video. *)
Definition valid_video_type (type : string) : bool :=
  String.eqb type "original" || String.eqb type "processed".


(** Descending order of strings. *)
Definition desc (a b : string) : Prop := String.le b a.

(** The keys that [list_objects] passes to the loop of [list_user_videos]. *)
Definition listed_keys (uid : string) (objs : gmap string string) : list string :=
  filter (λ k, String.prefix (uid +:+ "/") k = true) (elements (dom objs)).

(** [d.get(k)] on the dict of [list_videos]. *)
Fixpoint dict_lookup (k : string) (d : list (string * Video.VideoEntry))
    : option Video.VideoEntry :=
  match d with
  | [] => None
  | (k', v) :: d' => if String.eqb k k' then Some v else dict_lookup k d'
  end.

(** The task id that [list_videos] reads off a listed name. *)
Definition base_name (name : string) : string := replace name "_processed" "".

(** The invariant of the loop of [list_videos] after the names [seen]: the
    keys are distinct, every entry is filed under its task id, and its flags
    say which kinds of names were seen for it. *)
Definition videos_inv (seen : list string) (d : list (string * Video.VideoEntry)) : Prop :=
  NoDup (map fst d) ∧
  ∀ k, match dict_lookup k d with
       | None => ∀ name, name ∈ seen → base_name name ≠ k
       | Some v =>
           Video.ve_task_id v = k
           ∧ (Video.has_processed v = true ↔
              ∃ name, name ∈ seen ∧ base_name name = k
                      ∧ endswith name "_processed" = true)
           ∧ (Video.has_original v = true ↔
              ∃ name, name ∈ seen ∧ base_name name = k
                      ∧ endswith name "_processed" = false)
       end.

(** The order of [get_user_library]. *)
Definition newest_first (a b : Ai.LibraryRow) : Prop :=
  (Ai.lr_selected_at b ≤ Ai.lr_selected_at a)%Z.

(** ** More concrete inputs *)

(** A process that has just started, with one downloaded file on disk. *)
Definition world_file : World :=
  {| TASKS := ∅; bucket := None; redis2 := [];
     scratch := {[1%positive := "raw video"]}; downloads := [] |}.

(** The provider answers without a task id. *)
Definition env_no_task_id : Env :=
  {| kie_post := λ _, Returned (JObj [("data", JObj [])]);
     http_get := http_get env_up;
     bucket_exists_ok := true; make_bucket_ok := true; fput_object_ok := true;
     get_object_ok := true; list_objects_ok := true; lpush_ok := true;
     ffmpeg := ffmpeg env_up; oauth_tokens := oauth_tokens env_up;
     GOOGLE_CLIENT_ID := None; GOOGLE_CLIENT_SECRET := None;
     youtube_insert := youtube_insert env_up |}.

(** The queue cannot be reached. *)
Definition env_queue_down : Env :=
  {| kie_post := kie_post env_up;
     http_get := http_get env_up;
     bucket_exists_ok := true; make_bucket_ok := true; fput_object_ok := true;
     get_object_ok := true; list_objects_ok := true; lpush_ok := false;
     ffmpeg := ffmpeg env_up; oauth_tokens := oauth_tokens env_up;
     GOOGLE_CLIENT_ID := None; GOOGLE_CLIENT_SECRET := None;
     youtube_insert := youtube_insert env_up |}.

(** The provider answers with [null] for the data. *)
Definition env_data_null : Env :=
  {| kie_post := λ _, Returned (JObj [("code", JStr "500"); ("data", JNull)]);
     http_get := http_get env_up;
     bucket_exists_ok := true; make_bucket_ok := true; fput_object_ok := true;
     get_object_ok := true; list_objects_ok := true; lpush_ok := true;
     ffmpeg := ffmpeg env_up; oauth_tokens := oauth_tokens env_up;
     GOOGLE_CLIENT_ID := None; GOOGLE_CLIENT_SECRET := None;
     youtube_insert := youtube_insert env_up |}.

(** A final video of user ["u1"] that is not published yet. *)
Definition row_abc : Ai.FinalVideo :=
  {| Ai.video_key := "u1/abc_processed.mp4"; Ai.fv_user_id := "u1";
     Ai.title := Some "cat"; Ai.description := None; Ai.selected_at := 1700000000;
     Ai.youtube_uploaded := false; Ai.youtube_video_id := None;
     Ai.youtube_uploaded_at := None |}.

(** A later final video of the same user, and one of another user that is
    later still. *)
Definition row_xyz : Ai.FinalVideo :=
  {| Ai.video_key := "u1/xyz_processed.mp4"; Ai.fv_user_id := "u1";
     Ai.title := Some "dog"; Ai.description := None; Ai.selected_at := 1700000500;
     Ai.youtube_uploaded := false; Ai.youtube_video_id := None;
     Ai.youtube_uploaded_at := None |}.

Definition row_u2 : Ai.FinalVideo :=
  {| Ai.video_key := "u2/def_processed.mp4"; Ai.fv_user_id := "u2";
     Ai.title := Some "bird"; Ai.description := None; Ai.selected_at := 1700000900;
     Ai.youtube_uploaded := false; Ai.youtube_video_id := None;
     Ai.youtube_uploaded_at := None |}.

(** * Proofs *)

(** Unfolding of the monad, and running a handler through its binds. *)
Ltac unfold_M :=
  unfold mbind, M_bind, mret, M_ret, lift, raise, modify, get_world, unless,
    try_except, try_finally in *.

Ltac run_M :=
  repeat (unfold_M; unfold with_scratch, with_bucket, with_redis2, with_TASKS, with_downloads in *;
          simpl; rewrite ?lookup_insert_eq).

(** Lookups in a scratch directory with the two files [p1] and [p2]. *)
Ltac lookup_two p1 p2 :=
  repeat first [ rewrite lookup_insert_eq
               | rewrite (lookup_insert_ne _ p2 p1) by done
               | rewrite (lookup_insert_ne _ p1 p2) by done
               | rewrite (lookup_delete_ne _ p1 p2) by done ].

(** ** Strings *)

Lemma split_tail sep a f :
  ∃ h t, split sep (a +:+ String sep f) = h :: (t ++ split sep f)%list.
Proof.
  induction a as [|c a IH]; simpl.
  - rewrite Ascii.eqb_refl. by exists "", [].
  - destruct IH as (h & t & ->). destruct (Ascii.eqb c sep).
    + by exists "", (h :: t).
    + by exists (String c h), t.
Qed.

Lemma split_free sep f : free_of sep f = true → split sep f = [f].
Proof.
  induction f as [|c f IH]; simpl; [done|].
  intros [Hc Hf]%andb_prop. apply negb_true_iff in Hc. rewrite Hc, IH; done.
Qed.

Lemma last_item_split a f :
  free_of "/" f = true → last_item (split "/" (a +:+ String "/" f)) = f.
Proof.
  intros Hf. destruct (split_tail "/" a f) as (h & t & ->).
  rewrite split_free by done. unfold last_item.
  change (h :: (t ++ [f])%list) with ((h :: t) ++ [f])%list. apply last_last.
Qed.

Lemma endswith_unfold s suffix :
  endswith s suffix =
  if String.eqb s suffix then true
  else match s with "" => false | String _ s' => endswith s' suffix end.
Proof. by destruct s. Qed.

Lemma endswith_refl s : endswith s s = true.
Proof. by rewrite endswith_unfold, String.eqb_refl. Qed.

Lemma endswith_app t s suffix :
  endswith s suffix = true → endswith (t +:+ s) suffix = true.
Proof.
  intros Hs. induction t as [|c t IH]; [done|].
  change (String c t +:+ s) with (String c (t +:+ s)).
  rewrite endswith_unfold, IH.
  by destruct (String.eqb _ _).
Qed.

Lemma replace_go_free old_c old new t rest :
  free_of old_c t = true →
  replace_go (String old_c old) new 0 (t +:+ rest) =
  t +:+ replace_go (String old_c old) new 0 rest.
Proof.
  induction t as [|c t IH]; [done|].
  intros [Hc Hf]%andb_prop. apply negb_true_iff, Ascii.eqb_neq in Hc.
  change (String c t +:+ rest) with (String c (t +:+ rest)).
  cbn [replace_go String.prefix].
  destruct (ascii_dec old_c c) as [->|_]; [done|].
  by rewrite IH.
Qed.

Lemma prefix_app a b : String.prefix a (a +:+ b) = true.
Proof.
  induction a as [|c a IH].
  { change ("" +:+ b) with b. by destruct b. }
  change (String c a +:+ b) with (String c (a +:+ b)).
  cbn [String.prefix]. by destruct (ascii_dec c c).
Qed.

Lemma prefix_app_app a b c : String.prefix (a +:+ b) (a +:+ b +:+ c) = true.
Proof.
  induction a as [|x a IH]; [apply (prefix_app b c)|].
  change (String.prefix (String x (a +:+ b)) (String x (a +:+ b +:+ c)) = true).
  cbn [String.prefix]. by destruct (ascii_dec x x).
Qed.

Lemma insert_desc_elem x y l : x ∈ insert_desc y l ↔ x = y ∨ x ∈ l.
Proof.
  induction l as [|z l IH]; simpl.
  - rewrite elem_of_cons. tauto.
  - destruct (String.ltb z y); rewrite !elem_of_cons; [tauto|]. rewrite IH. tauto.
Qed.

Lemma sorted_reverse_elem x l : x ∈ sorted_reverse l ↔ x ∈ l.
Proof.
  unfold sorted_reverse. induction l as [|y l IH]; simpl; [done|].
  by rewrite insert_desc_elem, IH, elem_of_cons.
Qed.

Lemma collect_mp4_elem k objects :
  k ∈ objects →
  endswith (last_item (split "/" k)) ".mp4" = true →
  replace (last_item (split "/" k)) ".mp4" "" ∈ MinioClient.collect_mp4 objects.
Proof.
  intros Hk He. induction objects as [|o objects IH]; [by apply elem_of_nil in Hk|].
  apply elem_of_cons in Hk as [<-|Hk]; simpl.
  - rewrite He. by left.
  - destruct (endswith (last_item (split "/" o)) ".mp4"); [right|]; auto.
Qed.

Lemma collect_mp4_listed x objects :
  x ∈ MinioClient.collect_mp4 objects ↔ ∃ key, key ∈ objects ∧ listed_name key = Some x.
Proof.
  unfold listed_name. induction objects as [|o objects IH]; simpl.
  - split; [by intros ?%elem_of_nil | by intros (? & ?%elem_of_nil & _)].
  - destruct (endswith (last_item (split "/" o)) ".mp4") eqn:He.
    + rewrite elem_of_cons, IH. split.
      * intros [->|(key & Hk & Hn)].
        -- exists o. rewrite He. split; [by left|done].
        -- exists key. split; [by right|done].
      * intros (key & [->|Hk]%elem_of_cons & Hn).
        -- rewrite He in Hn. left. by injection Hn.
        -- right. eauto.
    + rewrite IH. split.
      * intros (key & Hk & Hn). exists key. split; [by right|done].
      * intros (key & [->|Hk]%elem_of_cons & Hn); [by rewrite He in Hn|eauto].
Qed.

Lemma append_assoc a b c : (a +:+ b) +:+ c = a +:+ (b +:+ c).
Proof.
  induction a as [|x a IH]; [done|].
  change (String x ((a +:+ b) +:+ c) = String x (a +:+ (b +:+ c))). by rewrite IH.
Qed.

Lemma append_length a b : String.length (a +:+ b) = String.length a + String.length b.
Proof.
  induction a as [|x a IH]; [done|].
  change (S (String.length (a +:+ b)) = S (String.length a + String.length b)).
  by rewrite IH.
Qed.

Lemma append_inj_r s a b : a +:+ s = b +:+ s → a = b.
Proof.
  revert b. induction a as [|x a IH]; intros [|y b] Heq; [done|..].
  - apply (f_equal String.length) in Heq.
    change (String y b +:+ s) with (String y (b +:+ s)) in Heq.
    change ("" +:+ s) with s in Heq. simpl in Heq. rewrite append_length in Heq. lia.
  - apply (f_equal String.length) in Heq.
    change (String x a +:+ s) with (String x (a +:+ s)) in Heq.
    change ("" +:+ s) with s in Heq. simpl in Heq. rewrite append_length in Heq. lia.
  - change (String x (a +:+ s) = String y (b +:+ s)) in Heq.
    injection Heq as -> Heq. f_equal. by apply IH.
Qed.

Lemma free_of_app c a b : free_of c (a +:+ b) = free_of c a && free_of c b.
Proof.
  induction a as [|x a IH]; [done|].
  change (String x a +:+ b) with (String x (a +:+ b)). simpl.
  by rewrite IH, andb_assoc.
Qed.

Lemma strip_prefix_app p s : strip_prefix p (p +:+ s) = Some s.
Proof.
  induction p as [|x p IH]; [done|].
  change (String x p +:+ s) with (String x (p +:+ s)). simpl.
  by rewrite Ascii.eqb_refl.
Qed.

Lemma strip_prefix_Some p s name : strip_prefix p s = Some name → s = p +:+ name.
Proof.
  revert s. induction p as [|x p IH]; intros s; simpl.
  - by intros [= ->].
  - destruct s as [|y s]; [done|].
    destruct (Ascii.eqb_spec x y) as [->|]; [|done].
    intros ->%IH. done.
Qed.

Lemma prefix_strip p s : String.prefix p s = true → is_Some (strip_prefix p s).
Proof.
  revert s. induction p as [|x p IH]; intros s; simpl; [eauto|].
  destruct s as [|y s]; simpl; [done|].
  destruct (ascii_dec x y) as [->|]; [|done].
  rewrite Ascii.eqb_refl. apply IH.
Qed.

(** The listed name of an object that lies directly under the prefix of a
    user and has a plain name. *)
Lemma listed_name_plain uid name :
  plain_name name = true →
  listed_name (uid +:+ "/" +:+ name)
  = (if endswith name ".mp4" then Some (replace name ".mp4" "") else None)
  ∧ (endswith name ".mp4" = true → replace name ".mp4" "" +:+ ".mp4" = name).
Proof.
  unfold plain_name, listed_name. intros [Hfree Hext]%andb_prop.
  change (uid +:+ "/" +:+ name) with (uid +:+ String "/" name).
  rewrite last_item_split by done. split; [done|].
  intros He. rewrite He in Hext. simpl in Hext. by apply String.eqb_eq.
Qed.

Lemma listed_name_processed uid tid :
  plain_name (tid +:+ "_processed.mp4") = true →
  listed_name (processed_key uid tid) = Some (tid +:+ "_processed").
Proof.
  intros Hplain. unfold processed_key, MinioClient.video_filename.
  destruct (listed_name_plain uid _ Hplain) as [-> Hext].
  assert (He : endswith (tid +:+ "_processed.mp4") ".mp4" = true) by by apply endswith_app.
  rewrite He. f_equal. apply (append_inj_r ".mp4"). rewrite (Hext He).
  by rewrite append_assoc.
Qed.

(** ** Maps and scratch files *)

Lemma alter_lookup_insert {K} `{Countable K} {A} (f : A → A) (m : gmap K A) k x :
  m !! k = Some x → alter f k m = <[k := f x]> m.
Proof.
  intros Hk. apply map_eq. intros j. destruct (decide (k = j)) as [->|Hne].
  - by rewrite lookup_alter_eq, lookup_insert_eq, Hk.
  - by rewrite lookup_alter_ne, lookup_insert_ne.
Qed.

Lemma scratch_fresh (m : gmap positive string) : m !! fresh (dom m) = None.
Proof. apply not_elem_of_dom, is_fresh. Qed.

Lemma scratch_restored (m m2 : gmap positive string) p :
  m !! p = None →
  (∀ q, q ≠ p → m2 !! q = m !! q) →
  delete p m2 = m.
Proof.
  intros Hp Hq. apply map_eq. intros q. destruct (decide (p = q)) as [<-|Hne].
  - by rewrite lookup_delete_eq.
  - rewrite lookup_delete_ne by done. by apply Hq.
Qed.

Lemma fresh_two (m : gmap positive string) :
  let p1 := fresh (dom m) in
  let p2 := fresh (dom (<[p1 := ""]> m)) in
  p1 ≠ p2 ∧ m !! p1 = None ∧ m !! p2 = None.
Proof.
  intros p1 p2. pose proof (scratch_fresh m) as H1.
  pose proof (scratch_fresh (<[p1 := ""]> m)) as H2. fold p1 in H1. fold p2 in H2.
  destruct (decide (p1 = p2)) as [Heq|Hne].
  - rewrite <- Heq, lookup_insert_eq in H2. discriminate.
  - rewrite lookup_insert_ne in H2 by done. done.
Qed.

(** ** The object store *)

(** [upload_ok] says when [upload_video] returns, for a file that is there. *)
Lemma upload_video_raises env u t p pr w c :
  scratch w !! p = Some c →
  is_raised (MinioClient.upload_video env u t p pr w).1 = negb (upload_ok env w).
Proof.
  intros Hp. unfold upload_ok, MinioClient.upload_video, MinioClient.ensure_bucket,
    MinioClient.bucket_exists, MinioClient.make_bucket, MinioClient.fput_object, read_file.
  destruct w as [T b q s dl]; simpl in Hp.
  destruct (bucket_exists_ok env), b, (make_bucket_ok env), (fput_object_ok env);
    run_M; rewrite ?Hp; run_M; done.
Qed.

(** Listing does not change the world. *)
Lemma list_user_videos_pure env uid w :
  MinioClient.list_user_videos env uid w = (listing env w uid, w).
Proof.
  unfold listing, MinioClient.list_user_videos, MinioClient.list_objects. unfold_M.
  destruct (list_objects_ok env); run_M; [destruct (bucket w)|]; done.
Qed.

(** What the check of a status query looks at. *)
Lemma processed_listed_iff env w uid tid :
  processed_listed env w uid tid = true ↔
  uid ≠ "" ∧ list_objects_ok env = true
  ∧ ∃ objs key, bucket w = Some objs ∧ is_Some (objs !! key)
                ∧ String.prefix (uid +:+ "/") key = true
                ∧ listed_name key = Some (tid +:+ "_processed").
Proof.
  unfold processed_listed, listing, MinioClient.list_user_videos, MinioClient.list_objects.
  simpl. destruct (String.eqb_spec uid "") as [->|Hu]; simpl.
  { split; [done|]. by intros [? _]. }
  destruct (list_objects_ok env); run_M.
  2: { split; [done|]. by intros (_ & ? & _). }
  destruct (bucket w) as [objs|]; run_M.
  2: { split; [done|]. by intros (_ & _ & ? & ? & ? & _). }
  rewrite bool_decide_eq_true, sorted_reverse_elem, collect_mp4_listed. split.
  - intros (key & [Hpre Hin]%list_elem_of_filter & Hn).
    split; [done|]. split; [done|]. exists objs, key.
    by apply elem_of_elements, elem_of_dom in Hin.
  - intros (_ & _ & objs' & key & [= <-] & Hin & Hpre & Hn).
    exists key. split; [|done]. apply list_elem_of_filter. split; [done|].
    by apply elem_of_elements, elem_of_dom.
Qed.

Lemma flat_store_key w uid objs key name :
  flat_store w uid = true → bucket w = Some objs → is_Some (objs !! key) →
  strip_prefix (uid +:+ "/") key = Some name → plain_name name = true.
Proof.
  unfold flat_store. intros Hflat Hb Hin Hs. rewrite Hb in Hflat.
  rewrite forallb_forall in Hflat.
  assert (Hk : In key (elements (dom objs))).
  { by apply list_elem_of_In, elem_of_elements, elem_of_dom. }
  specialize (Hflat key Hk). by rewrite Hs in Hflat.
Qed.

(** With the documented layout, a working listing and a user id that is not
    empty, the check finds the processed video exactly when it is stored. *)
Lemma processed_listed_exists env w uid tid :
  flat_store w uid = true → uid ≠ "" → list_objects_ok env = true →
  processed_listed env w uid tid = processed_exists w uid tid.
Proof.
  intros Hflat Hu Hl. apply eq_true_iff_eq. rewrite processed_listed_iff.
  unfold processed_exists. split.
  - intros (_ & _ & objs & key & Hb & Hin & Hpre & Hn). rewrite Hb.
    apply bool_decide_eq_true_2.
    destruct (prefix_strip _ _ Hpre) as [name Hs].
    pose proof (flat_store_key w uid objs key name Hflat Hb Hin Hs) as Hplain.
    apply strip_prefix_Some in Hs. rewrite append_assoc in Hs. subst key.
    destruct (listed_name_plain uid name Hplain) as [Hlisted Hext].
    rewrite Hlisted in Hn. destruct (endswith name ".mp4"); [|done].
    injection Hn as Hn. specialize (Hext eq_refl). rewrite Hn, append_assoc in Hext.
    unfold processed_key, MinioClient.video_filename.
    change ("_processed" +:+ ".mp4") with "_processed.mp4" in Hext. by rewrite Hext.
  - destruct (bucket w) as [objs|] eqn:Hb; [|done].
    intros Hin%bool_decide_eq_true_1.
    split; [done|]. split; [done|]. exists objs, (processed_key uid tid).
    split; [done|]. split; [done|].
    assert (Hs : strip_prefix (uid +:+ "/") (processed_key uid tid)
                 = Some (tid +:+ "_processed.mp4")).
    { unfold processed_key, MinioClient.video_filename.
      rewrite <- append_assoc. apply strip_prefix_app. }
    split; [apply prefix_app_app|].
    apply listed_name_processed. by eapply flat_store_key.
Qed.

(** ** The callback *)

(** The worker writes its output where the status query looks for it. *)
Lemma job_output_key tid uid : output_key (job_of tid uid) = processed_key uid tid.
Proof. reflexivity. Qed.

(** The [try] block: it returns exactly when all three steps go through, it
    keeps the scratch file, and only then publishes and moves the status. *)
Lemma callback_body_spec env tid uid urls p w c0 :
  scratch w !! p = Some c0 →
  let r := Video.callback_body env tid uid urls p w in
  is_raised r.1 = negb (callback_succeeds env urls w)
  ∧ (∀ q, q ≠ p → scratch r.2 !! q = scratch w !! q)
  ∧ is_Some (scratch r.2 !! p)
  ∧ TASKS r.2 = (if callback_succeeds env urls w
                 then alter (set_status QUEUED_FOR_AI) tid (TASKS w) else TASKS w)
  ∧ redis2 r.2 = (if callback_succeeds env urls w then job_of tid uid :: redis2 w else redis2 w)
  ∧ downloads r.2 = (requested urls ++ downloads w)%list.
Proof.
  intros Hp. unfold callback_succeeds, upload_ok, job_of, requested.
  unfold Video.callback_body, Video.client_get, Video.download, write_file,
    MinioClient.upload_video, MinioClient.ensure_bucket,
    MinioClient.bucket_exists, MinioClient.make_bucket, MinioClient.fput_object, read_file,
    Video.lpush, Video.store_status.
  destruct w as [T b q s dl]; simpl in Hp.
  destruct (index0 urls) as [url|e].
  2: { run_M. rewrite Hp. eauto 10. }
  run_M. destruct (http_get env url) as [c|e].
  2: { simpl. rewrite Hp. eauto 10. }
  destruct (bucket_exists_ok env), b, (make_bucket_ok env), (fput_object_ok env),
    (lpush_ok env); run_M; simpl.
  all: try ((split; [done|]); (split; [intros; by rewrite ?lookup_insert_ne|]); eauto 10).
Qed.

(** A delivery for a known task with result URLs: acknowledged, the scratch
    directory as before, the status set by the outcome of the steps. *)
Lemma video_callback_known env payload w tid t urls :
  Video.callback_fields payload = Returned (JStr tid, urls) →
  TASKS w !! tid = Some t →
  truthy urls = true →
  let r := Video.video_callback env payload w in
  let ok := callback_succeeds env urls w in
  r.1 = Returned Video.Ack
  ∧ scratch r.2 = scratch w
  ∧ TASKS r.2 = <[tid := set_status (if ok then QUEUED_FOR_AI else FAILED) t]> (TASKS w)
  ∧ redis2 r.2 = (if ok then job_of tid (user_id t) :: redis2 w else redis2 w)
  ∧ downloads r.2 = (requested urls ++ downloads w)%list.
Proof.
  intros Hf Ht Hu. unfold Video.video_callback, Video.TASKS_get, NamedTemporaryFile.
  unfold_M. rewrite Hf. simpl. rewrite Ht. simpl. rewrite Hu. simpl.
  set (p := fresh (dom (scratch w))).
  set (w1 := with_scratch <[p:=""]> w).
  assert (Hp : scratch w1 !! p = Some "") by (subst w1; simpl; apply lookup_insert_eq).
  assert (Hfresh : scratch w !! p = None) by apply scratch_fresh.
  assert (Hok : callback_succeeds env urls w1 = callback_succeeds env urls w) by done.
  pose proof (callback_body_spec env tid (user_id t) urls p w1 "" Hp) as Hb.
  rewrite Hok in Hb.
  destruct (Video.callback_body env tid (user_id t) urls p w1) as [o w2].
  simpl in Hb. destruct Hb as (Hr & Hs & [c Hc] & HT & Hq & Hdl).
  assert (Hdel : delete p (scratch w2) = scratch w).
  { apply map_eq. intros q. destruct (decide (p = q)) as [<-|Hne].
    - by rewrite lookup_delete_eq.
    - rewrite lookup_delete_ne by done. rewrite Hs by done.
      subst w1. simpl. by rewrite lookup_insert_ne. }
  destruct o as [[]|e]; simpl in Hr;
    destruct (callback_succeeds env urls w); try discriminate; simpl.
  - unfold os_remove. unfold_M. rewrite Hc. simpl.
    rewrite Hdel, HT, Hq, Hdl. subst w1. simpl. by erewrite alter_lookup_insert.
  - unfold Video.store_status, os_remove. unfold_M. simpl. rewrite Hc. simpl.
    rewrite Hdel, HT, Hq, Hdl. subst w1. simpl. by erewrite alter_lookup_insert.
Qed.

Lemma video_callback_ignored env payload w task_id urls :
  Video.callback_fields payload = Returned (task_id, urls) →
  hashable task_id = true →
  known_task w task_id = None ∨ truthy urls = false →
  Video.video_callback env payload w = (Returned Video.Ack, w).
Proof.
  intros Hf Hh Hor. unfold Video.video_callback, Video.TASKS_get. unfold_M.
  rewrite Hf. simpl.
  destruct task_id as [|tid| |]; try discriminate; simpl; [done|].
  simpl in Hor. destruct (TASKS w !! tid) as [t|]; simpl; [|done].
  destruct Hor as [Hk | Hk]; [discriminate | by rewrite Hk].
Qed.

(** A body whose fields cannot be read, or whose task id cannot be looked up,
    raises before anything is touched. *)
Lemma video_callback_rejected env payload w :
  match Video.callback_fields payload with
  | Raised _ => True
  | Returned (task_id, _) => hashable task_id = false
  end →
  ∃ e, Video.video_callback env payload w = (Raised e, w).
Proof.
  unfold Video.video_callback, Video.TASKS_get. unfold_M.
  destruct (Video.callback_fields payload) as [[task_id urls]|e]; simpl; [|eauto].
  destruct task_id; simpl; try discriminate; eauto.
Qed.

Lemma video_callback_tasks env payload w :
  let w' := (Video.video_callback env payload w).2 in
  TASKS w' = TASKS w
  ∨ ∃ tid t s, TASKS w !! tid = Some t ∧ (s = QUEUED_FOR_AI ∨ s = FAILED)
               ∧ TASKS w' = <[tid := set_status s t]> (TASKS w).
Proof.
  destruct (Video.callback_fields payload) as [[task_id urls]|e] eqn:Hf.
  2: { left. destruct (video_callback_rejected env payload w) as [e' ->]; [by rewrite Hf|done]. }
  destruct (hashable task_id) eqn:Hh.
  2: { left. destruct (video_callback_rejected env payload w) as [e' ->]; [by rewrite Hf|done]. }
  destruct (known_task w task_id) as [t|] eqn:Hk.
  2: { left. by erewrite video_callback_ignored; eauto. }
  destruct (truthy urls) eqn:Hu.
  2: { left. by erewrite video_callback_ignored; eauto. }
  destruct task_id as [|tid| |]; try discriminate. simpl in Hk.
  destruct (video_callback_known env payload w tid t urls Hf Hk Hu) as (_ & _ & HT & _).
  right. exists tid, t. eexists. split; [done|]. split; [|exact HT].
  destruct (callback_succeeds env urls w); auto.
Qed.

Lemma video_callback_scratch env payload w :
  scratch (Video.video_callback env payload w).2 = scratch w.
Proof.
  destruct (Video.callback_fields payload) as [[task_id urls]|e] eqn:Hf.
  2: { destruct (video_callback_rejected env payload w) as [e' ->]; [by rewrite Hf|done]. }
  destruct (hashable task_id) eqn:Hh.
  2: { destruct (video_callback_rejected env payload w) as [e' ->]; [by rewrite Hf|done]. }
  destruct (known_task w task_id) as [t|] eqn:Hk.
  2: { by erewrite video_callback_ignored; eauto. }
  destruct (truthy urls) eqn:Hu.
  2: { by erewrite video_callback_ignored; eauto. }
  destruct task_id as [|tid| |]; try discriminate. simpl in Hk.
  by destruct (video_callback_known env payload w tid t urls Hf Hk Hu) as (_ & ? & _).
Qed.

(** ** The status query *)

Lemma get_status_unknown env w tid :
  TASKS w !! tid = None →
  Video.get_status env tid w = (Returned (Video.TaskStatus tid DONE), w).
Proof. intros H. unfold Video.get_status. unfold_M. by rewrite H. Qed.

Lemma get_status_failed env w tid t :
  TASKS w !! tid = Some t → status t = FAILED →
  Video.get_status env tid w = (Returned (Video.TaskStatus tid FAILED), w).
Proof.
  intros H Hs. unfold Video.get_status. unfold_M. rewrite H.
  by rewrite bool_decide_eq_true_2.
Qed.

Lemma get_status_known env w tid t :
  TASKS w !! tid = Some t → status t ≠ FAILED →
  Video.get_status env tid w =
    if processed_listed env w (user_id t) tid
    then (Returned (Video.TaskStatus tid DONE),
          with_TASKS (insert tid (set_status DONE t)) w)
    else (Returned (Video.TaskStatus tid (status t)), w).
Proof.
  intros H Hs. unfold Video.get_status, processed_listed, Video.load_status, Video.store_status.
  unfold_M. rewrite H. rewrite bool_decide_eq_false_2 by done.
  destruct (truthy (JStr (user_id t))); simpl.
  2: { by rewrite H. }
  rewrite list_user_videos_pure.
  destruct (listing env w (user_id t)) as [names|e]; simpl.
  2: { by rewrite H. }
  destruct (bool_decide (tid +:+ "_processed" ∈ names)); simpl.
  - rewrite lookup_alter_eq, H. simpl.
    unfold with_TASKS. simpl. by erewrite alter_lookup_insert.
  - by rewrite H.
Qed.

Lemma get_status_tasks env tid w :
  let w' := (Video.get_status env tid w).2 in
  TASKS w' = TASKS w
  ∨ ∃ t, TASKS w !! tid = Some t ∧ status t ≠ FAILED
         ∧ TASKS w' = <[tid := set_status DONE t]> (TASKS w).
Proof.
  destruct (TASKS w !! tid) as [t|] eqn:Ht.
  2: { left. by rewrite get_status_unknown. }
  destruct (decide (status t = FAILED)) as [Hs|Hs].
  { left. by erewrite get_status_failed. }
  simpl. rewrite (get_status_known env w tid t Ht Hs).
  destruct (processed_listed env w (user_id t) tid); [right|left]; eauto.
Qed.

(** ** Submission *)

Lemma generate_video_spec env prompt u w :
  match submitted_id env prompt with
  | Some tid =>
      Video.generate_video env prompt u w =
      (Returned (Video.TaskStatus tid QUEUED),
       with_TASKS (insert tid {| status := QUEUED; user_id := u |}) w)
  | None => ∃ e, Video.generate_video env prompt u w = (Raised e, w)
  end.
Proof.
  unfold submitted_id, Video.generate_video. unfold_M.
  destruct (kie_post env prompt) as [data|e]; simpl; [|eauto].
  destruct (dict_get data "data" (JObj [])) as [d|e]; simpl; [|eauto].
  destruct (dict_get d "taskId" JNull) as [[|tid|l|l]|e]; simpl; eauto.
  - destruct (String.eqb tid ""); simpl; eauto.
  - destruct l; simpl; eauto.
  - destruct l; simpl; eauto.
Qed.

Lemma generate_video_tasks env prompt u w :
  let w' := (Video.generate_video env prompt u w).2 in
  match submitted_id env prompt with
  | Some tid => TASKS w' = <[tid := {| status := QUEUED; user_id := u |}]> (TASKS w)
  | None => TASKS w' = TASKS w
  end.
Proof.
  pose proof (generate_video_spec env prompt u w) as H.
  destruct (submitted_id env prompt); simpl; [by rewrite H|].
  destruct H as [e ->]. done.
Qed.

(** ** Status steps and the task map over a trace *)

Lemma serve_next_status env req w tid t :
  TASKS w !! tid = Some t →
  ∃ t', TASKS (Video.serve env req w).2 !! tid = Some t'
        ∧ status t' = next_status env w req tid t.
Proof.
  intros Ht. destruct req as [prompt u|payload|q]; simpl.
  - pose proof (generate_video_tasks env prompt u w) as H. simpl in H.
    destruct (submitted_id env prompt) as [tid0|]; rewrite H.
    + destruct (decide (tid0 = tid)) as [->|Hne].
      * rewrite lookup_insert_eq, bool_decide_eq_true_2 by done. eauto.
      * rewrite lookup_insert_ne, bool_decide_eq_false_2 by congruence. eauto.
    + rewrite bool_decide_eq_false_2 by done. eauto.
  - destruct (Video.callback_fields payload) as [[task_id urls]|e] eqn:Hf.
    2: { destruct (video_callback_rejected env payload w) as [e' ->]; [by rewrite Hf|eauto]. }
    destruct task_id as [|tid0|l|l].
    + erewrite video_callback_ignored; eauto.
    + destruct (truthy urls) eqn:Hu.
      2: { erewrite video_callback_ignored; eauto. rewrite andb_false_r. eauto. }
      destruct (TASKS w !! tid0) as [t0|] eqn:Ht0.
      2: { erewrite video_callback_ignored; eauto.
           destruct (String.eqb_spec tid0 tid) as [->|]; [congruence|eauto]. }
      destruct (video_callback_known env payload w tid0 t0 urls Hf Ht0 Hu)
        as (_ & _ & HT & _).
      rewrite HT. destruct (String.eqb_spec tid0 tid) as [->|Hne]; simpl.
      * rewrite lookup_insert_eq. simplify_eq. eexists. split; [done|].
        by destruct (callback_succeeds env urls w).
      * rewrite lookup_insert_ne by done. eauto.
    + destruct (video_callback_rejected env payload w) as [e' ->]; [by rewrite Hf|eauto].
    + destruct (video_callback_rejected env payload w) as [e' ->]; [by rewrite Hf|eauto].
  - destruct (String.eqb_spec q tid) as [->|Hne]; simpl.
    + destruct (decide (status t = FAILED)) as [Hs|Hs].
      * rewrite (get_status_failed env w tid t Ht Hs).
        rewrite bool_decide_eq_true_2 by done. eauto.
      * rewrite (get_status_known env w tid t Ht Hs).
        rewrite bool_decide_eq_false_2 by done. simpl.
        destruct (processed_listed env w (user_id t) tid); simpl; [|eauto].
        rewrite lookup_insert_eq. eauto.
    + destruct (get_status_tasks env q w) as [H|(t0 & Ht0 & Hs & H)]; rewrite H;
        [|rewrite lookup_insert_ne by done]; eauto.
Qed.

Lemma same_entries_refl m : same_entries m m.
Proof. split; [done|]. intros. by simplify_eq. Qed.

Lemma same_entries_set_status m tid t s :
  m !! tid = Some t → same_entries m (<[tid := set_status s t]> m).
Proof.
  intros Ht. split.
  - rewrite dom_insert_L. apply elem_of_dom_2 in Ht. set_solver.
  - intros tid0 t0 t0' H0 H0'. destruct (decide (tid = tid0)) as [->|Hne].
    + rewrite lookup_insert_eq in H0'. by simplify_eq.
    + rewrite lookup_insert_ne in H0' by done. by simplify_eq.
Qed.

Lemma video_callback_same_entries env payload w :
  same_entries (TASKS w) (TASKS (Video.video_callback env payload w).2).
Proof.
  destruct (video_callback_tasks env payload w) as [->|(tid & t & s & Ht & _ & ->)];
    [apply same_entries_refl | by apply same_entries_set_status].
Qed.

Lemma get_status_same_entries env tid w :
  same_entries (TASKS w) (TASKS (Video.get_status env tid w).2).
Proof.
  destruct (get_status_tasks env tid w) as [->|(t & Ht & _ & ->)];
    [apply same_entries_refl | by apply same_entries_set_status].
Qed.

Lemma dom_serve env req w :
  dom (TASKS (Video.serve env req w).2) = dom (TASKS w) ∪ registered [(env, req)].
Proof.
  destruct req as [prompt u|payload|q]; simpl.
  - pose proof (generate_video_tasks env prompt u w) as H. simpl in H.
    destruct (submitted_id env prompt); rewrite H; [rewrite dom_insert_L|]; set_solver.
  - destruct (video_callback_same_entries env payload w) as [-> _]. set_solver.
  - destruct (get_status_same_entries env q w) as [-> _]. set_solver.
Qed.

Lemma registered_cons er rest : registered (er :: rest) = registered [er] ∪ registered rest.
Proof.
  destruct er as [env [prompt u|payload|q]]; simpl; [|set_solver..].
  destruct (submitted_id env prompt); set_solver.
Qed.

Lemma dom_run trace w :
  dom (TASKS (Video.run trace w)) = dom (TASKS w) ∪ registered trace.
Proof.
  revert w. induction trace as [|[env req] rest IH]; intros w.
  - simpl. set_solver.
  - rewrite registered_cons. cbn [Video.run]. rewrite IH, dom_serve. set_solver.
Qed.

(** ** Scratch files of the other handlers *)

Lemma upload_body_frame env body uid p w :
  ∀ q, q ≠ p → scratch (Video.upload_body env body uid p w).2 !! q = scratch w !! q.
Proof.
  intros q Hq.
  unfold Video.upload_body, MinioClient.get_video_stream, MinioClient.get_object,
    write_file, read_file.
  destruct (get_object_ok env); run_M; [|done].
  destruct (bucket w) as [objs|]; run_M; [|done].
  destruct (objs !! _) as [content|]; run_M; [|done].
  destruct (GoogleAuth.get_youtube_service env uid) as [svc|e]; run_M;
    [|by rewrite lookup_insert_ne].
  destruct (youtube_insert env _ _ _ _) as [resp|e]; run_M; [|by rewrite lookup_insert_ne].
  destruct (dict_get resp "id" JNull); run_M; by rewrite lookup_insert_ne.
Qed.

(** [upload_youtube] removes its scratch file on every path. *)
Lemma upload_youtube_scratch env body u w :
  scratch (Video.upload_youtube env body u w).2 = scratch w.
Proof.
  unfold Video.upload_youtube.
  destruct (negb _); [done|].
  unfold NamedTemporaryFile, Video.remove_if_exists, path_exists, os_remove. unfold_M. simpl.
  set (p := fresh (dom (scratch w))).
  set (w1 := with_scratch <[p:=""]> w).
  pose proof (upload_body_frame env body u p w1) as Hframe.
  assert (Hdel : delete p (scratch (Video.upload_body env body u p w1).2) = scratch w).
  { apply scratch_restored; [apply scratch_fresh|].
    intros q Hq. rewrite Hframe by done. subst w1. simpl. by rewrite lookup_insert_ne. }
  destruct (Video.upload_body env body u p w1) as [o w2]. simpl in *.
  assert (Hfin : ∀ (r : outcome Video.response),
    scratch (match (if bool_decide (is_Some (scratch w2 !! p))
                    then λ w0, match scratch w0 !! p with
                               | Some _ => λ w3, (Returned (), with_scratch (delete p) w3)
                               | None => λ w3, (Raised FileNotFoundError, w3)
                               end w0
                    else λ w0, (Returned (), w0)) w2 with
             | (Returned _, w'') => (r, w'')
             | (Raised e, w'') => (Raised e, w'')
             end).2 = scratch w).
  { intros r. case_bool_decide as Hex.
    - destruct Hex as [c Hc]. rewrite Hc. simpl. done.
    - apply eq_None_not_Some in Hex. simpl. rewrite <- Hdel.
      symmetry. by apply delete_id. }
  destruct o as [a|e]; apply Hfin.
Qed.

(** [get_thumbnail] removes its two scratch files when it returns, and leaves
    both behind whenever it raises. *)
Lemma get_thumbnail_scratch env tid u w :
  let r := Video.get_thumbnail env tid u w in
  match r.1 with
  | Returned _ => scratch r.2 = scratch w
  | Raised _ =>
      ∃ p1 p2, p1 ≠ p2 ∧ scratch w !! p1 = None ∧ scratch w !! p2 = None
               ∧ is_Some (scratch r.2 !! p1) ∧ is_Some (scratch r.2 !! p2)
  end.
Proof.
  destruct (fresh_two (scratch w)) as (Hne & Hp1 & Hp2).
  set (p1 := fresh (dom (scratch w))) in *.
  set (p2 := fresh (dom (<[p1 := ""]> (scratch w)))) in *.
  assert (Hleak : ∀ (m : gmap positive string),
             is_Some (m !! p1) → is_Some (m !! p2) →
             ∃ q1 q2, q1 ≠ q2 ∧ scratch w !! q1 = None ∧ scratch w !! q2 = None
                      ∧ is_Some (m !! q1) ∧ is_Some (m !! q2)) by (intros; eauto 10).
  assert (Hclean : ∀ c1 c2 c3 c4,
             delete p2 (delete p1 (<[p2 := c4]> (<[p1 := c3]>
               (<[p2 := c2]> (<[p1 := c1]> (scratch w)))))) = scratch w).
  { intros. apply map_eq. intros q.
    destruct (decide (q = p2)) as [->|?]; [by rewrite lookup_delete_eq|].
    rewrite lookup_delete_ne by done.
    destruct (decide (q = p1)) as [->|?]; [by rewrite lookup_delete_eq|].
    rewrite lookup_delete_ne by done. by rewrite !lookup_insert_ne. }
  unfold Video.get_thumbnail, Video.make_thumbnail, Video.run_ffmpeg, NamedTemporaryFile,
    MinioClient.get_thumbnail_stream, MinioClient.get_video_stream,
    MinioClient.upload_thumbnail, MinioClient.ensure_bucket, MinioClient.bucket_exists,
    MinioClient.make_bucket, MinioClient.fput_object, MinioClient.get_object,
    write_file, read_file, os_remove.
  destruct w as [T b q s dl]; simpl in *.
  destruct (get_object_ok env); run_M; fold p1; fold p2;
    [|apply Hleak; lookup_two p1 p2; eauto].
  destruct b as [objs|]; run_M; fold p1; fold p2;
    [|apply Hleak; lookup_two p1 p2; eauto].
  destruct (objs !! (u +:+ "/" +:+ tid +:+ ".jpg")) as [thumb|] eqn:Hthumb; run_M; [done|].
  fold p1; fold p2.
  destruct (objs !! (u +:+ "/" +:+ tid +:+ ".mp4")) as [video|]; run_M; fold p1; fold p2;
    [|apply Hleak; lookup_two p1 p2; eauto].
  repeat (progress lookup_two p1 p2; run_M).
  destruct (ffmpeg env video) as [frame|e]; run_M;
    [|apply Hleak; lookup_two p1 p2; eauto].
  destruct (bucket_exists_ok env); run_M;
    [|apply Hleak; lookup_two p1 p2; eauto].
  repeat (progress lookup_two p1 p2; run_M).
  destruct (fput_object_ok env); run_M;
    [|apply Hleak; lookup_two p1 p2; eauto].
  repeat (progress lookup_two p1 p2; run_M).
  apply Hclean.
Qed.

(** ** Credentials *)

Lemma get_youtube_service_expiry env uid svc :
  GoogleAuth.get_youtube_service env uid = Returned svc →
  expiry (GoogleAuth.credentials svc) = None.
Proof.
  unfold GoogleAuth.get_youtube_service.
  destruct (oauth_tokens env uid) as [[row|]|e]; intros H; by simplify_eq.
Qed.

(** ** The table of final videos *)

Lemma has_key_false k table :
  Ai.has_key k table = false ↔ k ∉ map Ai.video_key table.
Proof.
  unfold Ai.has_key. induction table as [|r table IH]; simpl.
  - split; [intros _; apply not_elem_of_nil | done].
  - rewrite orb_false_iff, IH, not_elem_of_cons, String.eqb_neq. naive_solver.
Qed.

Lemma rows_with_key_absent k table :
  Ai.has_key k table = false → rows_with_key k table = [].
Proof.
  unfold Ai.has_key, rows_with_key. induction table as [|r table IH]; simpl; [done|].
  intros [-> Ht]%orb_false_iff. auto.
Qed.

Lemma rows_with_key_unique k table :
  NoDup (map Ai.video_key table) →
  Ai.has_key k table = true →
  List.length (rows_with_key k table) = 1.
Proof.
  unfold rows_with_key. induction table as [|r table IH]; simpl; [done|].
  intros [Hr Hnd]%NoDup_cons Hk.
  destruct (String.eqb (Ai.video_key r) k) eqn:Heq; simpl in *.
  - apply String.eqb_eq in Heq. subst k.
    apply has_key_false, rows_with_key_absent in Hr.
    unfold rows_with_key in Hr. by rewrite Hr.
  - auto.
Qed.

Lemma insert_keeps_unique s k u ttl d table :
  NoDup (map Ai.video_key table) →
  NoDup (map Ai.video_key (Ai.insert_on_conflict_do_nothing s k u ttl d table)).
Proof.
  intros Hnd. unfold Ai.insert_on_conflict_do_nothing.
  destruct (Ai.has_key k table) eqn:Hk; [done|].
  rewrite map_app. simpl. apply NoDup_app. split; [done|]. split.
  - intros x Hx Hin. apply list_elem_of_singleton in Hin. subst x.
    by apply has_key_false in Hk.
  - apply NoDup_singleton.
Qed.

Lemma insert_has_key s k u ttl d table :
  Ai.has_key k (Ai.insert_on_conflict_do_nothing s k u ttl d table) = true.
Proof.
  unfold Ai.insert_on_conflict_do_nothing.
  destruct (Ai.has_key k table) eqn:Hk; [done|].
  unfold Ai.has_key. rewrite existsb_app. simpl.
  by rewrite String.eqb_refl, orb_true_r.
Qed.

(** * The claims *)

(** The worked example of the specification: a submission, the provider's
    callback, the worker's output, a status query. *)
Example lifecycle :
  let w0 := {| TASKS := ∅; bucket := None; redis2 := []; scratch := ∅; downloads := [] |} in
  let w1 := (Video.generate_video env_up "a cat surfing" "u1" w0).2 in
  let w2 := (Video.video_callback env_up payload_abc w1).2 in
  let w3 := with_bucket (insert (processed_key "u1" "abc") "processed video" <$> bucket w2) w2 in
  TASKS w1 !! "abc" = Some (task_abc QUEUED)
  ∧ TASKS w2 !! "abc" = Some (task_abc QUEUED_FOR_AI)
  ∧ bucket w2 = Some {["u1/abc.mp4" := "raw video"]}
  ∧ redis2 w2 = [job_of "abc" "u1"]
  ∧ (Video.get_status env_up "abc" w2).1 = Returned (Video.TaskStatus "abc" QUEUED_FOR_AI)
  ∧ (Video.get_status env_up "abc" w3).1 = Returned (Video.TaskStatus "abc" DONE).
Proof. repeat split; vm_compute; reflexivity. Qed.

(** ** C1 *)

(** C1, as stated, fails on the code.  A callback whose download fails takes
    a QUEUED task straight to FAILED, and a callback delivered for a task
    that is DONE takes it to QUEUED_FOR_AI; neither is a transition of the
    specified machine. *)
Lemma status_machine_counterexample :
  TASKS (world_abc QUEUED) !! "abc" = Some (task_abc QUEUED)
  ∧ TASKS (Video.serve env_download_fails (Video.HandleCallback payload_abc)
             (world_abc QUEUED)).2 !! "abc" = Some (task_abc FAILED)
  ∧ TASKS (world_processed DONE) !! "abc" = Some (task_abc DONE)
  ∧ TASKS (Video.serve env_up (Video.HandleCallback payload_abc)
             (world_processed DONE)).2 !! "abc" = Some (task_abc QUEUED_FOR_AI)
  ∧ ¬ status_machine_as_specified.
Proof.
  assert (H1 : TASKS (world_processed DONE) !! "abc" = Some (task_abc DONE))
    by (vm_compute; reflexivity).
  assert (H2 : TASKS (Video.serve env_up (Video.HandleCallback payload_abc)
                        (world_processed DONE)).2 !! "abc" = Some (task_abc QUEUED_FOR_AI))
    by (vm_compute; reflexivity).
  repeat split; try (vm_compute; reflexivity).
  intros Hspec. destruct (Hspec _ _ _ _ _ _ H1 H2) as [Heq|Hstep].
  - discriminate Heq.
  - inversion Hstep.
Qed.

(** C1, amended: for every task of the map, one request gives the status
    that [next_status] computes.  A callback for this task id with result
    URLs sets the status to QUEUED_FOR_AI when its download, upload and
    push all go through and to FAILED when one of them fails, whatever the
    status was; a status query for this task sets a status other than FAILED
    to DONE when its storage check finds the processed video; a submission
    whose answer carries this same id registers it again as QUEUED; any
    other request leaves the status as it is.  So a status query never moves
    a task out of DONE or FAILED, and only a submission that returns this id
    makes a task QUEUED. *)
Theorem status_transitions_of_requests env req w tid t :
  TASKS w !! tid = Some t →
  ∃ t', TASKS (Video.serve env req w).2 !! tid = Some t'
        ∧ status t' = next_status env w req tid t
        ∧ (∀ q, req = Video.QueryStatus q →
                status t = DONE ∨ status t = FAILED → status t' = status t)
        ∧ (status t' = QUEUED →
           status t = QUEUED
           ∨ ∃ prompt user_sub, req = Video.Submit prompt user_sub
                                ∧ submitted_id env prompt = Some tid).
Proof.
  intros Ht. destruct (serve_next_status env req w tid t Ht) as (t' & Ht' & Hs).
  exists t'. split; [done|]. split; [done|]. rewrite Hs. split.
  - intros q -> Hdf. simpl. destruct (String.eqb q tid && _ && _) eqn:Hc; [|done].
    apply andb_prop in Hc as [[_ Hnf]%andb_prop _].
    apply negb_true_iff, bool_decide_eq_false_1 in Hnf.
    destruct Hdf as [Hd|Hf]; [by rewrite Hd | done].
  - destruct req as [prompt u|payload|q]; simpl.
    + case_bool_decide as Hid; [|by left]. intros _. right. eauto.
    + destruct (Video.callback_fields payload) as [[[|tid0|l|l] urls]|e]; try by left.
      destruct (String.eqb tid0 tid && truthy urls); [|by left].
      by destruct (callback_succeeds env urls w).
    + destruct (String.eqb q tid && _ && _); [done|by left].
Qed.

Lemma status_transitions_of_requests_witness :
  ∃ t', TASKS (Video.serve env_download_fails (Video.HandleCallback payload_abc)
                 (world_processed DONE)).2 !! "abc" = Some t'
        ∧ status t' = FAILED.
Proof.
  destruct (status_transitions_of_requests env_download_fails
              (Video.HandleCallback payload_abc) (world_processed DONE) "abc"
              (task_abc DONE)) as (t' & Ht' & Hs & _).
  - vm_compute; reflexivity.
  - exists t'. split; [exact Ht'|]. rewrite Hs. vm_compute; reflexivity.
Defined.

(** ** C2 *)

(** C2, as stated, fails on the code, in both directions and with a
    listing that succeeds.  A processed video of the same name in a folder
    below the prefix of the user makes the query report DONE although the
    object [u1/abc_processed.mp4] does not exist.  For a task id that has
    ".mp4" in it, and for a task of the empty user id, the processed video
    exists and the query still reports the stored status. *)
Lemma get_status_counterexample :
  (processed_exists world_nested "u1" "abc" = false
   ∧ listing env_up world_nested "u1" = Returned ["abc_processed"]
   ∧ (Video.get_status env_up "abc" world_nested).1
     = Returned (Video.TaskStatus "abc" DONE))
  ∧ (processed_exists world_dotted "u1" "a.mp4" = true
     ∧ listing env_up world_dotted "u1" = Returned ["a_processed"]
     ∧ Video.get_status env_up "a.mp4" world_dotted
       = (Returned (Video.TaskStatus "a.mp4" QUEUED_FOR_AI), world_dotted))
  ∧ (processed_exists world_no_user "" "abc" = true
     ∧ listing env_up world_no_user "" = Returned ["abc_processed"]
     ∧ Video.get_status env_up "abc" world_no_user
       = (Returned (Video.TaskStatus "abc" QUEUED_FOR_AI), world_no_user))
  ∧ ¬ get_status_as_specified.
Proof.
  repeat split; try (vm_compute; reflexivity).
  intros Hspec. specialize (Hspec env_up world_nested "abc").
  vm_compute in Hspec. discriminate Hspec.
Qed.

(** C2, amended: a status query reports DONE for a task that is not in the
    map and FAILED for a stored FAILED, both without touching anything.  For
    any other task it reports DONE and stores DONE exactly when its check
    finds the processed video, and reports the stored status and changes
    nothing when it does not.  The check finds it exactly when the task's
    user id is not empty, the listing succeeds, and some object under the
    prefix of the user has a last path segment that ends in ".mp4" and is
    [<task_id>_processed] once ".mp4" is deleted from it.  With the
    documented layout of the user's objects, a user id that is not empty and
    a listing that succeeds, that is exactly when the object
    [<user_id>/<task_id>_processed.mp4] exists.  The check finds nothing
    when the user id is empty or the listing raises. *)
Theorem get_status_report env w tid :
  (TASKS w !! tid = None →
   Video.get_status env tid w = (Returned (Video.TaskStatus tid DONE), w))
  ∧ (∀ t, TASKS w !! tid = Some t → status t = FAILED →
          Video.get_status env tid w = (Returned (Video.TaskStatus tid FAILED), w))
  ∧ (∀ t, TASKS w !! tid = Some t → status t ≠ FAILED →
          Video.get_status env tid w =
          if processed_listed env w (user_id t) tid
          then (Returned (Video.TaskStatus tid DONE),
                with_TASKS (insert tid (set_status DONE t)) w)
          else (Returned (Video.TaskStatus tid (status t)), w))
  ∧ (∀ uid, processed_listed env w uid tid = true ↔
            uid ≠ "" ∧ list_objects_ok env = true
            ∧ ∃ objs key, bucket w = Some objs ∧ is_Some (objs !! key)
                          ∧ String.prefix (uid +:+ "/") key = true
                          ∧ listed_name key = Some (tid +:+ "_processed"))
  ∧ (∀ uid, flat_store w uid = true → uid ≠ "" → list_objects_ok env = true →
            processed_listed env w uid tid = processed_exists w uid tid)
  ∧ (∀ uid, uid = "" ∨ is_raised (listing env w uid) = true →
            processed_listed env w uid tid = false).
Proof.
  split; [apply get_status_unknown|]. split; [apply get_status_failed|].
  split; [apply get_status_known|].
  split; [intros uid; apply processed_listed_iff|].
  split; [intros uid; apply processed_listed_exists|].
  intros uid [Hu|Hl]; unfold processed_listed.
  - by rewrite Hu.
  - destruct (listing env w uid); [done|]. apply andb_false_r.
Qed.

Lemma get_status_report_witness :
  Video.get_status env_up "abc" (world_processed QUEUED_FOR_AI)
  = (Returned (Video.TaskStatus "abc" DONE),
     with_TASKS (insert "abc" (set_status DONE (task_abc QUEUED_FOR_AI)))
       (world_processed QUEUED_FOR_AI)).
Proof.
  destruct (get_status_report env_up (world_processed QUEUED_FOR_AI) "abc")
    as (_ & _ & Hknown & _ & Hexists & _).
  assert (Ht : TASKS (world_processed QUEUED_FOR_AI) !! "abc" = Some (task_abc QUEUED_FOR_AI))
    by (vm_compute; reflexivity).
  assert (Hs : status (task_abc QUEUED_FOR_AI) ≠ FAILED) by discriminate.
  pose proof (Hknown (task_abc QUEUED_FOR_AI) Ht Hs) as Hk.
  change (user_id (task_abc QUEUED_FOR_AI)) with "u1" in Hk.
  rewrite (Hexists "u1") in Hk; [|vm_compute; reflexivity | discriminate | reflexivity].
  assert (He : processed_exists (world_processed QUEUED_FOR_AI) "u1" "abc" = true)
    by (vm_compute; reflexivity).
  rewrite He in Hk. exact Hk.
Defined.

(** ** C3 *)

(** C3: a callback for a known task with result URLs in which the download,
    the upload to the object store or the push onto the queue fails sets the
    task to FAILED, publishes nothing and still answers the provider with
    the acknowledgement; nothing is raised to the caller. *)
Theorem callback_failure_absorbed env payload w tid t urls :
  Video.callback_fields payload = Returned (JStr tid, urls) →
  TASKS w !! tid = Some t →
  truthy urls = true →
  is_raised (Video.download env urls) = true
    ∨ upload_ok env w = false ∨ lpush_ok env = false →
  let r := Video.video_callback env payload w in
  r.1 = Returned Video.Ack
  ∧ TASKS r.2 !! tid = Some (set_status FAILED t)
  ∧ redis2 r.2 = redis2 w.
Proof.
  intros Hf Ht Hu Hfail.
  destruct (video_callback_known env payload w tid t urls Hf Ht Hu) as (Hr & _ & HT & Hq & _).
  assert (Hok : callback_succeeds env urls w = false).
  { unfold callback_succeeds. destruct Hfail as [->|[->| ->]]; simpl;
      rewrite ?andb_false_r; done. }
  rewrite Hok in HT, Hq. simpl. rewrite HT, lookup_insert_eq. done.
Qed.

Lemma callback_failure_absorbed_witness :
  let r := Video.video_callback env_download_fails payload_abc (world_abc QUEUED) in
  r.1 = Returned Video.Ack
  ∧ TASKS r.2 !! "abc" = Some (task_abc FAILED)
  ∧ redis2 r.2 = [].
Proof.
  apply (callback_failure_absorbed env_download_fails payload_abc (world_abc QUEUED)
           "abc" (task_abc QUEUED) (JArr [JStr "https://kie.example/v.mp4"])).
  - reflexivity.
  - vm_compute; reflexivity.
  - reflexivity.
  - left. reflexivity.
Defined.

(** ** C4 *)

(** C4, as stated, fails on the code.  The same callback delivered twice,
    with every service up: after the first the task is QUEUED_FOR_AI and the
    queue has one job, after the second the queue has two. *)
Lemma second_callback_counterexample :
  let w1 := (Video.video_callback env_up payload_abc (world_abc QUEUED)).2 in
  let w2 := (Video.video_callback env_up payload_abc w1).2 in
  TASKS w1 !! "abc" = Some (task_abc QUEUED_FOR_AI)
  ∧ redis2 w1 = [job_of "abc" "u1"]
  ∧ redis2 w2 = [job_of "abc" "u1"; job_of "abc" "u1"]
  ∧ ¬ no_second_job_as_specified.
Proof.
  repeat split; try (vm_compute; reflexivity).
  intros Hspec.
  assert (Hsame : redis2 (Video.video_callback env_up payload_abc
                            (Video.video_callback env_up payload_abc (world_abc QUEUED)).2).2
                  = redis2 (Video.video_callback env_up payload_abc (world_abc QUEUED)).2).
  { apply (Hspec env_up payload_abc _ "abc" (JArr [JStr "https://kie.example/v.mp4"])
             (task_abc QUEUED_FOR_AI)).
    - reflexivity.
    - vm_compute; reflexivity.
    - discriminate. }
  vm_compute in Hsame. discriminate Hsame.
Qed.

(** C4, amended: the handler has no guard on the status.  Every delivery for
    a known task with result URLs, the first as well as a repeated one,
    publishes one job when its download, upload and push go through, and no
    job when one of them fails; the status that the task already has plays
    no part. *)
Theorem callback_publishes_per_delivery env1 env2 payload w tid t urls :
  Video.callback_fields payload = Returned (JStr tid, urls) →
  TASKS w !! tid = Some t →
  truthy urls = true →
  let w1 := (Video.video_callback env1 payload w).2 in
  let w2 := (Video.video_callback env2 payload w1).2 in
  redis2 w1 = (if callback_succeeds env1 urls w
               then job_of tid (user_id t) :: redis2 w else redis2 w)
  ∧ redis2 w2 = (if callback_succeeds env2 urls w1
                 then job_of tid (user_id t) :: redis2 w1 else redis2 w1).
Proof.
  intros Hf Ht Hu w1 w2.
  destruct (video_callback_known env1 payload w tid t urls Hf Ht Hu) as (_ & _ & HT & Hq & _).
  split; [exact Hq|].
  set (s := if callback_succeeds env1 urls w then QUEUED_FOR_AI else FAILED) in HT.
  assert (Ht1 : TASKS w1 !! tid = Some (set_status s t)).
  { subst w1. rewrite HT. apply lookup_insert_eq. }
  by destruct (video_callback_known env2 payload w1 tid _ urls Hf Ht1 Hu) as (_ & _ & _ & ? & _).
Qed.

Lemma callback_publishes_per_delivery_witness :
  let w1 := (Video.video_callback env_up payload_abc (world_abc QUEUED)).2 in
  let w2 := (Video.video_callback env_up payload_abc w1).2 in
  redis2 w1 = [job_of "abc" "u1"] ∧ redis2 w2 = [job_of "abc" "u1"; job_of "abc" "u1"].
Proof.
  pose proof (callback_publishes_per_delivery env_up env_up payload_abc (world_abc QUEUED)
                "abc" (task_abc QUEUED) (JArr [JStr "https://kie.example/v.mp4"])) as H.
  destruct H as [H1 H2].
  - reflexivity.
  - vm_compute; reflexivity.
  - reflexivity.
  - split; [rewrite H1 | rewrite H2]; vm_compute; reflexivity.
Defined.

(** ** C5 *)

(** C5 holds for the callback and for the upload to YouTube, which remove
    their scratch file in a [finally] block, and fails for the thumbnail:
    a request for the thumbnail of a task that has neither a thumbnail nor a
    video in the bucket raises after its two scratch files were made, and
    both are still there afterwards. *)
Theorem get_thumbnail_leaves_scratch_files :
  let r := Video.get_thumbnail env_up "missing" "u1" (world_processed DONE) in
  scratch (world_processed DONE) = ∅
  ∧ r.1 = Raised (S3Error "NoSuchKey")
  ∧ scratch r.2 = <[2%positive := ""]> {[1%positive := ""]}.
Proof. repeat split; vm_compute; reflexivity. Qed.

(** ** C6 *)




(** ** C7 *)

(** C7 fails on the code.  For a stored token with a naive expiry, the
    time-zone block computes the expiry in UTC, but the credential is built
    without it: the credential of the service has no expiry at all. *)
Theorem credentials_carry_no_expiry :
  oauth_tokens env_up "u1"
    = Returned (Some {| access_token := "at"; refresh_token := "rt";
                        expires_at := Some {| wall := 1700000000; tzinfo := None |} |})
  ∧ GoogleAuth.expiry_of (Some {| wall := 1700000000; tzinfo := None |})
    = Some {| wall := 1700000000; tzinfo := Some utc |}
  ∧ ∃ svc, GoogleAuth.get_youtube_service env_up "u1" = Returned svc
           ∧ expiry (GoogleAuth.credentials svc) = None.
Proof. repeat split. eexists. split; reflexivity. Qed.

(** ** C8 *)

(** C8: when the listing of the object store raises during a status query
    for a known task that is not FAILED, the query reports the stored status
    and raises nothing; the world is as before. *)
Theorem get_status_tolerates_storage_error env w tid t e :
  TASKS w !! tid = Some t →
  status t ≠ FAILED →
  (MinioClient.list_user_videos env (user_id t) w).1 = Raised e →
  Video.get_status env tid w = (Returned (Video.TaskStatus tid (status t)), w).
Proof.
  intros Ht Hs He. rewrite (get_status_known env w tid t Ht Hs).
  unfold processed_listed, listing. rewrite He. by rewrite andb_false_r.
Qed.

Lemma get_status_tolerates_storage_error_witness :
  Video.get_status env_listing_fails "abc" (world_processed QUEUED_FOR_AI)
  = (Returned (Video.TaskStatus "abc" QUEUED_FOR_AI), world_processed QUEUED_FOR_AI).
Proof.
  apply (get_status_tolerates_storage_error env_listing_fails
           (world_processed QUEUED_FOR_AI) "abc" (task_abc QUEUED_FOR_AI)
           (S3Error "Unavailable")).
  - vm_compute; reflexivity.
  - discriminate.
  - vm_compute; reflexivity.
Defined.

(** ** C9 *)

(** C9: on a table whose keys are unique, a committed insert followed by a
    second insert with the same [video_key] leaves exactly one row with that
    key; the second insert changes nothing and, when its session works,
    returns without an error. *)
Theorem insert_final_video_idempotent s1 s2 k u1 u2 ttl1 ttl2 d1 d2 table :
  NoDup (map Ai.video_key table) →
  session_ok s1 = true →
  let first := Ai.insert_final_video s1 k u1 ttl1 d1 table in
  let second := Ai.insert_final_video s2 k u2 ttl2 d2 first.2 in
  first.1 = Returned ()
  ∧ List.length (rows_with_key k first.2) = 1
  ∧ second.2 = first.2
  ∧ (session_ok s2 = true → second.1 = Returned ())
  ∧ NoDup (map Ai.video_key second.2).
Proof.
  intros Hnd [He Hc]%andb_prop first second. subst first second.
  unfold Ai.insert_final_video. rewrite He, Hc. simpl.
  set (t1 := Ai.insert_on_conflict_do_nothing s1 k u1 ttl1 d1 table).
  assert (Hk : Ai.has_key k t1 = true) by apply insert_has_key.
  assert (Hnd1 : NoDup (map Ai.video_key t1)) by by apply insert_keeps_unique.
  assert (Hsame : Ai.insert_on_conflict_do_nothing s2 k u2 ttl2 d2 t1 = t1).
  { unfold Ai.insert_on_conflict_do_nothing at 1. by rewrite Hk. }
  split; [done|]. split; [by apply rows_with_key_unique|].
  split; [|split].
  - destruct (Ai.execute_ok s2), (Ai.commit_ok s2); simpl; by rewrite ?Hsame.
  - intros [-> ->]%andb_prop. done.
  - destruct (Ai.execute_ok s2), (Ai.commit_ok s2); simpl; by rewrite ?Hsame.
Qed.

Lemma insert_final_video_idempotent_witness :
  let first := Ai.insert_final_video session_up "u1/abc_processed.mp4" "u1"
                 (Some "cat") None [] in
  let second := Ai.insert_final_video session_up "u1/abc_processed.mp4" "u1"
                  (Some "cat again") None first.2 in
  first.1 = Returned ()
  ∧ List.length (rows_with_key "u1/abc_processed.mp4" first.2) = 1
  ∧ second.2 = first.2
  ∧ (session_ok session_up = true → second.1 = Returned ())
  ∧ NoDup (map Ai.video_key second.2).
Proof.
  apply (insert_final_video_idempotent session_up session_up "u1/abc_processed.mp4"
           "u1" "u1" (Some "cat") (Some "cat again") None None []).
  - simpl. apply NoDup_nil_2.
  - reflexivity.
Defined.

(** ** C10 *)

(** C10: a submission either leaves the task map as it is or stores an
    entry with status QUEUED and the caller's user id under the id the
    provider returned; a callback and a status query keep the set of keys
    and the user id of every entry.  So over any sequence of requests the
    keys of the map are the keys it started with and the ids registered by
    its submissions, and in a process that started with the empty map a
    task is unknown exactly when no submission registered it. *)
Theorem task_map_only_grows :
  (∀ env prompt user_sub w,
     let w' := (Video.generate_video env prompt user_sub w).2 in
     match submitted_id env prompt with
     | Some tid =>
         TASKS w' = <[tid := {| status := QUEUED; user_id := user_sub |}]> (TASKS w)
     | None => TASKS w' = TASKS w
     end)
  ∧ (∀ env payload w,
       same_entries (TASKS w) (TASKS (Video.video_callback env payload w).2))
  ∧ (∀ env tid w,
       same_entries (TASKS w) (TASKS (Video.get_status env tid w).2))
  ∧ (∀ trace w,
       dom (TASKS (Video.run trace w)) = dom (TASKS w) ∪ registered trace)
  ∧ (∀ trace w tid,
       TASKS (Video.run trace (Video.loaded w)) !! tid = None ↔ tid ∉ registered trace).
Proof.
  split; [apply generate_video_tasks|].
  split; [apply video_callback_same_entries|].
  split; [apply get_status_same_entries|].
  split; [apply dom_run|].
  intros trace w tid. rewrite <- not_elem_of_dom, dom_run.
  unfold Video.loaded. simpl. rewrite dom_empty_L. set_solver.
Qed.

(** * Further properties of the handlers *)

(** ** Uploads and downloads *)

(** X1: an upload that goes through can be read back.  After [upload_video]
    returns, [get_video_stream] for the same user, task and kind yields the
    content of the uploaded file; the bucket is made if it was missing, no
    other object changes, and nothing but the bucket is touched. *)
Theorem upload_then_get_video env env' u t p processed w c :
  scratch w !! p = Some c →
  upload_ok env w = true →
  get_object_ok env' = true →
  let r := MinioClient.upload_video env u t p processed w in
  r.1 = Returned ()
  ∧ MinioClient.get_video_stream env' u t processed r.2 = (Returned c, r.2)
  ∧ (∀ key, key ≠ video_key_of u t processed → bucket_lookup r.2 key = bucket_lookup w key)
  ∧ TASKS r.2 = TASKS w ∧ redis2 r.2 = redis2 w ∧ scratch r.2 = scratch w.
Proof.
  intros Hp Hok Hget. unfold upload_ok in Hok.
  apply andb_prop in Hok as [Hok Hfput]. apply andb_prop in Hok as [Hbe Hmk].
  unfold MinioClient.upload_video, MinioClient.ensure_bucket, MinioClient.bucket_exists,
    MinioClient.make_bucket, MinioClient.fput_object, read_file,
    MinioClient.get_video_stream, MinioClient.get_object, video_key_of, bucket_lookup.
  rewrite Hbe, Hfput, Hget. destruct w as [T b q s dl]; simpl in *.
  destruct b as [objs|]; simpl in Hmk.
  - run_M. rewrite Hp. run_M. repeat split; try done.
    intros key Hne. by rewrite lookup_insert_ne.
  - rewrite Hmk. run_M. rewrite Hp. run_M. repeat split; try done.
    intros key Hne. by rewrite lookup_insert_ne.
Qed.

Lemma upload_then_get_video_witness :
  let r := MinioClient.upload_video env_up "u1" "abc" 1%positive false world_file in
  MinioClient.get_video_stream env_up "u1" "abc" false r.2 = (Returned "raw video", r.2).
Proof.
  pose proof (upload_then_get_video env_up env_up "u1" "abc" 1%positive false world_file
                "raw video") as H.
  destruct H as (_ & H & _); [vm_compute; reflexivity..|exact H].
Defined.

Lemma callback_body_bucket env tid uid urls p w c0 c :
  scratch w !! p = Some c0 →
  Video.download env urls = Returned c →
  upload_ok env w = true →
  bucket_lookup (Video.callback_body env tid uid urls p w).2 (video_key_of uid tid false)
  = Some c.
Proof.
  intros Hp Hd Hok. unfold upload_ok in Hok.
  apply andb_prop in Hok as [Hok Hfput]. apply andb_prop in Hok as [Hbe Hmk].
  unfold Video.callback_body, Video.client_get, write_file, MinioClient.upload_video,
    MinioClient.ensure_bucket, MinioClient.bucket_exists, MinioClient.make_bucket,
    MinioClient.fput_object, read_file, Video.lpush, Video.store_status, video_key_of,
    bucket_lookup.
  unfold Video.download in Hd. destruct (index0 urls) as [url|e]; [|discriminate].
  rewrite Hbe, Hfput. destruct w as [T b q s dl]; simpl in *.
  run_M. rewrite Hd.
  destruct b as [objs|]; simpl in Hmk; rewrite ?Hmk;
    destruct (lpush_ok env); run_M; done.
Qed.

(** Once the download and the upload of a callback went through, the
    original is in the bucket, whatever the push onto the queue does. *)
Lemma video_callback_bucket env payload w tid t urls c :
  Video.callback_fields payload = Returned (JStr tid, urls) →
  TASKS w !! tid = Some t →
  truthy urls = true →
  Video.download env urls = Returned c →
  upload_ok env w = true →
  bucket_lookup (Video.video_callback env payload w).2 (video_key_of (user_id t) tid false)
  = Some c.
Proof.
  intros Hf Ht Hu Hd Hok. unfold Video.video_callback, Video.TASKS_get, NamedTemporaryFile.
  unfold_M. rewrite Hf. simpl. rewrite Ht. simpl. rewrite Hu. simpl.
  set (p := fresh (dom (scratch w))).
  set (w1 := with_scratch <[p:=""]> w).
  assert (Hp : scratch w1 !! p = Some "") by (subst w1; simpl; apply lookup_insert_eq).
  pose proof (callback_body_bucket env tid (user_id t) urls p w1 "" c Hp Hd Hok) as Hb.
  pose proof (callback_body_spec env tid (user_id t) urls p w1 "" Hp) as Hs.
  destruct (Video.callback_body env tid (user_id t) urls p w1) as [o w2].
  simpl in *. destruct Hs as (_ & _ & [c2 Hc2] & _).
  unfold Video.store_status, os_remove. unfold_M.
  destruct o as [[]|e]; simpl; rewrite Hc2; simpl; exact Hb.
Qed.

(** X2: after a callback whose download and upload went through, streaming
    the original of that task for its owner serves exactly the bytes that
    were downloaded from the provider. *)
Theorem callback_then_stream env env' payload w tid t urls c :
  Video.callback_fields payload = Returned (JStr tid, urls) →
  TASKS w !! tid = Some t →
  truthy urls = true →
  Video.download env urls = Returned c →
  upload_ok env w = true →
  get_object_ok env' = true →
  let w' := (Video.video_callback env payload w).2 in
  Video.stream_video env' tid "original" (user_id t) w'
  = (Returned (Video.Stream "video/mp4" c), w').
Proof.
  intros Hf Ht Hu Hd Hok Hget w'.
  pose proof (video_callback_bucket env payload w tid t urls c Hf Ht Hu Hd Hok) as Hb.
  fold w' in Hb. unfold Video.stream_video, MinioClient.get_video_stream,
    MinioClient.get_object. rewrite Hget. unfold bucket_lookup, video_key_of in Hb.
  run_M. destruct (bucket w') as [objs|]; [|done]. simpl in *. by rewrite Hb.
Qed.

Lemma callback_then_stream_witness :
  let w' := (Video.video_callback env_up payload_abc (world_abc QUEUED)).2 in
  Video.stream_video env_up "abc" "original" "u1" w'
  = (Returned (Video.Stream "video/mp4" "raw video"), w').
Proof.
  apply (callback_then_stream env_up env_up payload_abc (world_abc QUEUED) "abc"
           (task_abc QUEUED) (JArr [JStr "https://kie.example/v.mp4"]) "raw video");
    vm_compute; reflexivity.
Defined.

(** X3: a callback whose push onto the queue fails after the upload went
    through is acknowledged, marks the task FAILED and publishes nothing,
    but leaves the uploaded original in the bucket. *)
Theorem publish_failure_keeps_upload env payload w tid t urls c :
  Video.callback_fields payload = Returned (JStr tid, urls) →
  TASKS w !! tid = Some t →
  truthy urls = true →
  Video.download env urls = Returned c →
  upload_ok env w = true →
  lpush_ok env = false →
  let r := Video.video_callback env payload w in
  r.1 = Returned Video.Ack
  ∧ TASKS r.2 !! tid = Some (set_status FAILED t)
  ∧ redis2 r.2 = redis2 w
  ∧ bucket_lookup r.2 (video_key_of (user_id t) tid false) = Some c.
Proof.
  intros Hf Ht Hu Hd Hok Hl r.
  destruct (video_callback_known env payload w tid t urls Hf Ht Hu) as (Hr & _ & HT & Hq & _).
  assert (Hfail : callback_succeeds env urls w = false).
  { unfold callback_succeeds. by rewrite Hl, andb_false_r. }
  rewrite Hfail in HT, Hq. subst r. rewrite HT, lookup_insert_eq.
  repeat split; try done. by eapply video_callback_bucket.
Qed.

Lemma publish_failure_keeps_upload_witness :
  let r := Video.video_callback env_queue_down payload_abc (world_abc QUEUED) in
  TASKS r.2 !! "abc" = Some (task_abc FAILED)
  ∧ bucket_lookup r.2 "u1/abc.mp4" = Some "raw video".
Proof.
  pose proof (publish_failure_keeps_upload env_queue_down payload_abc (world_abc QUEUED)
                "abc" (task_abc QUEUED) (JArr [JStr "https://kie.example/v.mp4"])
                "raw video") as H.
  destruct H as (_ & Ht & _ & Hb); [vm_compute; reflexivity..|].
  split; [exact Ht | exact Hb].
Defined.

(** ** Answers of the callback *)

Theorem well_formed_delivery_acknowledged env payload w task_id urls :
  Video.callback_fields payload = Returned (task_id, urls) →
  hashable task_id = true →
  (Video.video_callback env payload w).1 = Returned Video.Ack.
Proof.
  intros Hf Hh.
  destruct (known_task w task_id) as [t|] eqn:Hk.
  2: { by erewrite video_callback_ignored; eauto. }
  destruct (truthy urls) eqn:Hu.
  2: { by erewrite video_callback_ignored; eauto. }
  destruct task_id as [|tid| |]; try discriminate. simpl in Hk.
  by destruct (video_callback_known env payload w tid t urls Hf Hk Hu) as (? & _).
Qed.

(** X4: the callback answers with the acknowledgement for every body whose
    fields can be read and whose task id is hashable, whatever the outside
    services do; for any other body it raises before touching anything. *)
Theorem callback_acknowledges_well_formed env payload w :
  let r := Video.video_callback env payload w in
  (well_formed payload = true → r.1 = Returned Video.Ack)
  ∧ (well_formed payload = false → ∃ e, r = (Raised e, w)).
Proof.
  unfold well_formed. split.
  - destruct (Video.callback_fields payload) as [[task_id urls]|e] eqn:Hf; [|done].
    intros Hh. by eapply well_formed_delivery_acknowledged.
  - intros Hw. apply video_callback_rejected.
    destruct (Video.callback_fields payload) as [[task_id urls]|e]; done.
Qed.

(** ** The status query *)

Lemma listing_with_TASKS env f w uid : listing env (with_TASKS f w) uid = listing env w uid.
Proof.
  unfold listing, MinioClient.list_user_videos, MinioClient.list_objects.
  destruct (list_objects_ok env); run_M; [destruct (bucket w)|]; done.
Qed.

(** X5: a status query is idempotent: asked again under the same answers of
    the object store, it gives the same response and leaves the world as the
    first query left it. *)
Theorem get_status_idempotent env tid w :
  let r := Video.get_status env tid w in
  Video.get_status env tid r.2 = r.
Proof.
  destruct (TASKS w !! tid) as [t|] eqn:Ht.
  2: { simpl. rewrite (get_status_unknown env w tid Ht). simpl.
       by rewrite get_status_unknown. }
  destruct (decide (status t = FAILED)) as [Hs|Hs].
  { simpl. rewrite (get_status_failed env w tid t Ht Hs). simpl.
    by rewrite (get_status_failed env w tid t). }
  simpl. rewrite (get_status_known env w tid t Ht Hs).
  destruct (processed_listed env w (user_id t) tid) eqn:Hl; simpl.
  - set (w1 := with_TASKS (insert tid (set_status DONE t)) w).
    assert (Ht1 : TASKS w1 !! tid = Some (set_status DONE t)) by apply lookup_insert_eq.
    rewrite (get_status_known env w1 tid _ Ht1) by done.
    assert (Hl1 : processed_listed env w1 (user_id (set_status DONE t)) tid = true).
    { unfold processed_listed in *. subst w1. by rewrite listing_with_TASKS. }
    rewrite Hl1. f_equal. subst w1. unfold with_TASKS. simpl.
    by rewrite insert_insert_eq.
  - by rewrite (get_status_known env w tid t Ht Hs), Hl.
Qed.

(** X6: a status query never raises, and it touches nothing but the status
    of the task it asks about: the bucket, the queue, the scratch files and
    every other task are as before. *)
Theorem get_status_always_answers env tid w :
  let r := Video.get_status env tid w in
  (∃ st, r.1 = Returned (Video.TaskStatus tid st))
  ∧ bucket r.2 = bucket w ∧ redis2 r.2 = redis2 w ∧ scratch r.2 = scratch w
  ∧ (∀ other, other ≠ tid → TASKS r.2 !! other = TASKS w !! other).
Proof.
  destruct (TASKS w !! tid) as [t|] eqn:Ht.
  2: { simpl. rewrite get_status_unknown by done. simpl. eauto 10. }
  destruct (decide (status t = FAILED)) as [Hs|Hs].
  { simpl. rewrite (get_status_failed env w tid t) by done. simpl. eauto 10. }
  simpl. rewrite (get_status_known env w tid t Ht Hs).
  destruct (processed_listed env w (user_id t) tid); simpl; repeat split; eauto.
  intros other Hne. by rewrite lookup_insert_ne.
Qed.

(** ** Thumbnails *)

(** X7: a thumbnail that was served once is stored: after [get_thumbnail]
    returns, the bucket holds the thumbnail it served, and asking again
    serves the same bytes from the bucket without changing anything. *)
Theorem get_thumbnail_cached env env' tid u w mt c :
  (Video.get_thumbnail env tid u w).1 = Returned (Video.Stream mt c) →
  get_object_ok env' = true →
  let w' := (Video.get_thumbnail env tid u w).2 in
  bucket_lookup w' (thumbnail_key u tid) = Some c
  ∧ Video.get_thumbnail env' tid u w' = (Returned (Video.Stream "image/jpeg" c), w').
Proof.
  intros Hr Hget w'.
  assert (Hb : bucket_lookup w' (thumbnail_key u tid) = Some c).
  { subst w'. revert Hr.
    destruct (fresh_two (scratch w)) as (Hne & Hp1 & Hp2).
    set (p1 := fresh (dom (scratch w))) in *.
    set (p2 := fresh (dom (<[p1 := ""]> (scratch w)))) in *.
    unfold Video.get_thumbnail, Video.make_thumbnail, Video.run_ffmpeg, NamedTemporaryFile,
      MinioClient.get_thumbnail_stream, MinioClient.get_video_stream,
      MinioClient.upload_thumbnail, MinioClient.ensure_bucket, MinioClient.bucket_exists,
      MinioClient.make_bucket, MinioClient.fput_object, MinioClient.get_object,
      write_file, read_file, os_remove, bucket_lookup, thumbnail_key.
    destruct w as [T b q s dl]; simpl in *.
    destruct (get_object_ok env); run_M; fold p1; fold p2; [|done].
    destruct b as [objs|]; run_M; fold p1; fold p2; [|done].
    destruct (objs !! (u +:+ "/" +:+ tid +:+ ".jpg")) as [thumb|] eqn:Hthumb; run_M.
    { intros [= <- <-]. done. }
    fold p1; fold p2.
    destruct (objs !! (u +:+ "/" +:+ tid +:+ ".mp4")) as [video|]; run_M; fold p1; fold p2;
      [|done].
    repeat (progress lookup_two p1 p2; run_M).
    destruct (ffmpeg env video) as [frame|e]; run_M; [|done].
    destruct (bucket_exists_ok env); run_M; [|done].
    repeat (progress lookup_two p1 p2; run_M).
    destruct (fput_object_ok env); run_M; [|done].
    repeat (progress lookup_two p1 p2; run_M).
    intros [= <- <-]. done. }
  split; [done|].
  unfold Video.get_thumbnail, MinioClient.get_thumbnail_stream, MinioClient.get_object.
  rewrite Hget. unfold bucket_lookup, thumbnail_key in Hb. run_M.
  destruct (bucket w') as [objs|]; [|done]. simpl in *. by rewrite Hb.
Qed.

Lemma get_thumbnail_cached_witness :
  let w' := (Video.get_thumbnail env_up "abc" "u1" (world_processed DONE)).2 in
  bucket_lookup w' "u1/abc.jpg" = Some "frame"
  ∧ Video.get_thumbnail env_up "abc" "u1" w'
    = (Returned (Video.Stream "image/jpeg" "frame"), w').
Proof.
  apply (get_thumbnail_cached env_up env_up "abc" "u1" (world_processed DONE)
           "image/jpeg" "frame"); vm_compute; reflexivity.
Defined.

(** ** The upload to YouTube *)

Lemma upload_body_rest env body uid p w :
  let w' := (Video.upload_body env body uid p w).2 in
  TASKS w' = TASKS w ∧ bucket w' = bucket w ∧ redis2 w' = redis2 w
  ∧ downloads w' = downloads w.
Proof.
  unfold Video.upload_body, MinioClient.get_video_stream, MinioClient.get_object,
    write_file, read_file.
  destruct (get_object_ok env); run_M; [|done].
  destruct (bucket w) as [objs|] eqn:Hb; run_M; [|by rewrite Hb].
  destruct (objs !! _) as [content|]; run_M; [|by rewrite Hb].
  destruct (GoogleAuth.get_youtube_service env uid) as [svc|e]; run_M; [|by rewrite Hb].
  destruct (youtube_insert env _ _ _ _) as [resp|e]; run_M; [|by rewrite Hb].
  destruct (dict_get resp "id" JNull); run_M; by rewrite Hb.
Qed.

Lemma bind_NamedTemporaryFile {A} (f : positive → M A) w :
  (NamedTemporaryFile ≫= f) w
  = f (fresh (dom (scratch w))) (with_scratch <[fresh (dom (scratch w)) := ""]> w).
Proof. reflexivity. Qed.

(** The cleanup of [upload_youtube] never raises: it removes the file if it
    is there. *)
Lemma try_finally_remove_if_exists {A} (m : M A) p w :
  try_finally m (Video.remove_if_exists p) w
  = ((m w).1, with_scratch (delete p) (m w).2).
Proof.
  unfold try_finally, Video.remove_if_exists, path_exists, os_remove. unfold_M.
  destruct (m w) as [o w2]. simpl. case_bool_decide as Hex; simpl.
  - destruct Hex as [c Hc]. by rewrite Hc.
  - apply eq_None_not_Some in Hex. destruct w2 as [T b q s dl]. simpl in *.
    unfold with_scratch. simpl. by rewrite delete_id.
Qed.

Lemma upload_youtube_valid env body u w :
  valid_video_type (Video.yt_type body) = true →
  let p := fresh (dom (scratch w)) in
  let r := Video.upload_body env body u p (with_scratch <[p:=""]> w) in
  Video.upload_youtube env body u w
  = (match r.1 with
     | Returned a => Returned a
     | Raised _ => Raised (HTTPException 500 "YouTube upload failed")
     end, with_scratch (delete p) r.2).
Proof.
  intros Hv p r. unfold valid_video_type in Hv. subst r.
  unfold Video.upload_youtube. rewrite Hv.
  change (negb true) with false. cbv iota.
  rewrite bind_NamedTemporaryFile. fold p.
  rewrite try_finally_remove_if_exists. unfold try_except, raise.
  by destruct (Video.upload_body env body u p (with_scratch <[p:=""]> w)) as [[a|e] w2].
Qed.

Lemma upload_body_returns env body uid p w a :
  (Video.upload_body env body uid p w).1 = Returned a → ∃ id, a = Video.Uploaded id.
Proof.
  unfold Video.upload_body, MinioClient.get_video_stream, MinioClient.get_object,
    write_file, read_file.
  destruct (get_object_ok env); run_M; [|done].
  destruct (bucket w) as [objs|]; run_M; [|done].
  destruct (objs !! _) as [content|]; run_M; [|done].
  destruct (GoogleAuth.get_youtube_service env uid) as [svc|e]; run_M; [|done].
  destruct (youtube_insert env _ _ _ _) as [resp|e]; run_M; [|done].
  destruct (dict_get resp "id" JNull); run_M; [|done].
  intros [= <-]. eauto.
Qed.

(** X9: [upload_youtube] leaves the whole world as it was.  A type other
    than "original" or "processed" is refused with status 400; for a valid
    type the handler either returns the id of the upload or raises the one
    HTTPException with status 500, whatever went wrong inside. *)
Theorem upload_youtube_effects env body u w :
  let r := Video.upload_youtube env body u w in
  r.2 = w
  ∧ (valid_video_type (Video.yt_type body) = false →
     r.1 = Raised (HTTPException 400 "Invalid video type"))
  ∧ (valid_video_type (Video.yt_type body) = true →
     r.1 = Raised (HTTPException 500 "YouTube upload failed")
     ∨ ∃ id, r.1 = Returned (Video.Uploaded id)).
Proof.
  destruct (valid_video_type (Video.yt_type body)) eqn:Hv.
  2: { unfold valid_video_type in Hv. unfold Video.upload_youtube. rewrite Hv. simpl. done. }
  pose proof (upload_youtube_scratch env body u w) as Hs. simpl.
  rewrite (upload_youtube_valid env body u w Hv) in *. simpl in *.
  set (p := fresh (dom (scratch w))) in *.
  pose proof (upload_body_rest env body u p (with_scratch <[p:=""]> w)) as (HT & Hb & Hq & Hdl).
  pose proof (upload_body_returns env body u p (with_scratch <[p:=""]> w)) as Hshape.
  destruct (Video.upload_body env body u p (with_scratch <[p:=""]> w)) as [o w2].
  simpl in *. clearbody p. split; [|split; [done|]].
  - destruct w2 as [T2 b2 q2 s2 dl2], w as [T b q s dl]. simpl in *. by subst.
  - intros _. destruct o as [a|e]; [right | by left].
    destruct (Hshape a eq_refl) as [id ->]. eauto.
Qed.


(** ** Listings *)

Lemma ltb_true_le y x : String.ltb y x = true → String.le y x.
Proof.
  unfold String.ltb, String.le, String.leb.
  destruct (String.compare y x); simpl; intros H; first [exact I | discriminate H].
Qed.

Lemma ltb_false_le y x : String.ltb y x = false → String.le x y.
Proof.
  unfold String.ltb, String.le, String.leb. rewrite (String.compare_antisym x y).
  destruct (String.compare y x); simpl; intros H; first [exact I | discriminate H].
Qed.

Lemma insert_desc_perm x l : insert_desc x l ≡ₚ x :: l.
Proof.
  induction l as [|y l IH]; simpl; [done|].
  destruct (String.ltb y x); [done|]. rewrite IH. apply Permutation_swap.
Qed.

Lemma sorted_reverse_perm l : sorted_reverse l ≡ₚ l.
Proof.
  unfold sorted_reverse. induction l as [|x l IH]; simpl; [done|].
  by rewrite insert_desc_perm, IH.
Qed.

Lemma insert_desc_HdRel y x l :
  String.le x y → HdRel desc y l → HdRel desc y (insert_desc x l).
Proof.
  intros Hxy Hl. destruct l as [|z l]; simpl; [by constructor|].
  destruct (String.ltb z x); constructor; [done|]. by inversion Hl.
Qed.

Lemma insert_desc_sorted x l : Sorted desc l → Sorted desc (insert_desc x l).
Proof.
  induction 1 as [|y l Hs IH Hhd]; simpl; [by repeat constructor|].
  destruct (String.ltb y x) eqn:Hlt.
  - constructor; [by constructor|]. constructor. by apply ltb_true_le.
  - constructor; [done|]. apply insert_desc_HdRel; [by apply ltb_false_le|done].
Qed.

Lemma sorted_reverse_sorted l : Sorted desc (sorted_reverse l).
Proof.
  unfold sorted_reverse. induction l as [|x l IH]; simpl; [constructor|].
  by apply insert_desc_sorted.
Qed.

Global Instance desc_trans : Transitive desc.
Proof. intros a b c Hab Hbc. unfold desc in *. by etrans. Qed.

Global Instance desc_antisym : AntiSymm (=) desc.
Proof. intros a b Hab Hba. unfold desc in *. by apply (anti_symm String.le). Qed.

Lemma sorted_reverse_of_perm l1 l2 : l1 ≡ₚ l2 → sorted_reverse l1 = sorted_reverse l2.
Proof.
  intros Hp. apply (Sorted_unique desc); try apply sorted_reverse_sorted.
  by rewrite !sorted_reverse_perm.
Qed.

Lemma collect_mp4_perm l1 l2 :
  l1 ≡ₚ l2 → MinioClient.collect_mp4 l1 ≡ₚ MinioClient.collect_mp4 l2.
Proof.
  induction 1 as [|x l1 l2 _ IH|x y l|l1 l2 l3 _ IH1 _ IH2]; simpl.
  - done.
  - destruct (endswith _ _); by rewrite IH.
  - destruct (endswith (last_item (split "/" y)) ".mp4"),
      (endswith (last_item (split "/" x)) ".mp4"); try done. apply Permutation_swap.
  - by etrans.
Qed.

Lemma listing_bucket env w uid objs :
  bucket w = Some objs → list_objects_ok env = true →
  listing env w uid = Returned (sorted_reverse (MinioClient.collect_mp4 (listed_keys uid objs))).
Proof.
  intros Hb Hl. unfold listing, MinioClient.list_user_videos, MinioClient.list_objects.
  rewrite Hl. run_M. by rewrite Hb.
Qed.

(** X11: what [list_user_videos] returns is in descending order and is, up
    to order, what its loop collects from the objects under the prefix of
    the user. *)
Theorem list_user_videos_sorted env w uid names :
  listing env w uid = Returned names →
  ∃ objs, bucket w = Some objs
          ∧ Sorted desc names
          ∧ names ≡ₚ MinioClient.collect_mp4 (listed_keys uid objs).
Proof.
  unfold listing, MinioClient.list_user_videos, MinioClient.list_objects.
  destruct (list_objects_ok env); run_M; [|done].
  destruct (bucket w) as [objs|]; run_M; [|done].
  intros [= <-]. exists objs. split; [done|].
  split; [apply sorted_reverse_sorted | apply sorted_reverse_perm].
Qed.

Lemma list_user_videos_sorted_witness :
  ∃ objs, bucket (world_processed DONE) = Some objs
          ∧ Sorted desc ["abc_processed"; "abc"]
          ∧ ["abc_processed"; "abc"] ≡ₚ MinioClient.collect_mp4 (listed_keys "u1" objs).
Proof.
  apply (list_user_videos_sorted env_up (world_processed DONE) "u1").
  vm_compute; reflexivity.
Defined.

Lemma prefix_other_user u1 u2 x :
  free_of "/" u1 = true → free_of "/" u2 = true → u1 ≠ u2 →
  String.prefix (u1 +:+ "/") (u2 +:+ String "/" x) = false.
Proof.
  revert u2. induction u1 as [|a u1 IH]; intros u2 H1 H2 Hne.
  - destruct u2 as [|b u2]; [done|]. simpl in H2.
    apply andb_prop in H2 as [Hb _]. apply negb_true_iff, Ascii.eqb_neq in Hb.
    change (String.prefix (String "/" "") (String b (u2 +:+ String "/" x)) = false).
    cbn [String.prefix]. by destruct (ascii_dec "/" b) as [<-|].
  - simpl in H1. apply andb_prop in H1 as [Ha H1].
    apply negb_true_iff, Ascii.eqb_neq in Ha.
    destruct u2 as [|b u2].
    + change (String.prefix (String a (u1 +:+ "/")) (String "/" x) = false).
      cbn [String.prefix]. by destruct (ascii_dec a "/").
    + simpl in H2. apply andb_prop in H2 as [_ H2].
      change (String.prefix (String a (u1 +:+ "/")) (String b (u2 +:+ String "/" x)) = false).
      cbn [String.prefix]. destruct (ascii_dec a b) as [->|]; [|done].
      apply IH; [done..|]. congruence.
Qed.

Lemma upload_video_bucket env u t p processed w objs :
  bucket w = Some objs →
  let w' := (MinioClient.upload_video env u t p processed w).2 in
  bucket w' = Some objs
  ∨ ∃ c, bucket w' = Some (<[video_key_of u t processed := c]> objs).
Proof.
  intros Hb. unfold MinioClient.upload_video, MinioClient.ensure_bucket,
    MinioClient.bucket_exists, MinioClient.make_bucket, MinioClient.fput_object,
    read_file, video_key_of.
  destruct w as [T b q s dl]; simpl in Hb; subst b.
  destruct (bucket_exists_ok env); run_M; [|by left].
  destruct (s !! p) as [c|]; run_M; [|by left].
  destruct (fput_object_ok env); run_M; [right; eauto | by left].
Qed.

Lemma listed_keys_insert_other uid key c objs :
  String.prefix (uid +:+ "/") key = false →
  listed_keys uid (<[key := c]> objs) ≡ₚ listed_keys uid objs.
Proof.
  intros Hpre. unfold listed_keys. rewrite dom_insert_L.
  destruct (decide (key ∈ dom objs)) as [Hin|Hnin].
  - by replace ({[key]} ∪ dom objs) with (dom objs) by set_solver.
  - rewrite elements_union_singleton by done.
    rewrite filter_cons_False; [done|]. by rewrite Hpre.
Qed.

Lemma upload_video_no_bucket env u t p processed w :
  bucket w = None →
  let w' := (MinioClient.upload_video env u t p processed w).2 in
  bucket w' = None ∨ bucket w' = Some ∅
  ∨ ∃ c, bucket w' = Some (<[video_key_of u t processed := c]> ∅).
Proof.
  intros Hb. unfold MinioClient.upload_video, MinioClient.ensure_bucket,
    MinioClient.bucket_exists, MinioClient.make_bucket, MinioClient.fput_object,
    read_file, video_key_of.
  destruct w as [T b q s dl]; simpl in Hb; subst b.
  destruct (bucket_exists_ok env); run_M; [|by left].
  destruct (make_bucket_ok env); run_M; [|by left].
  destruct (s !! p) as [c|]; run_M; [|by right; left].
  destruct (fput_object_ok env); run_M; [right; right; eauto | by right; left].
Qed.

Lemma listing_same_bucket env w1 w2 uid :
  bucket w1 = bucket w2 → listing env w1 uid = listing env w2 uid.
Proof.
  intros Hbb. unfold listing, MinioClient.list_user_videos, MinioClient.list_objects.
  destruct (list_objects_ok env); run_M; [|done].
  rewrite Hbb. by destruct (bucket w2).
Qed.

Lemma listing_down env w uid :
  list_objects_ok env = false → listing env w uid = Raised (S3Error "Unavailable").
Proof.
  intros Hl. unfold listing, MinioClient.list_user_videos, MinioClient.list_objects.
  rewrite Hl. by run_M.
Qed.

Lemma listing_no_bucket env w uid :
  bucket w = None → list_objects_ok env = true →
  listing env w uid = Raised (S3Error "NoSuchBucket").
Proof.
  intros Hb Hl. unfold listing, MinioClient.list_user_videos, MinioClient.list_objects.
  rewrite Hl. run_M. by rewrite Hb.
Qed.

Lemma listing_empty_bucket env w uid :
  bucket w = Some ∅ → list_objects_ok env = true → listing env w uid = Returned [].
Proof.
  intros Hb Hl. rewrite (listing_bucket env w uid ∅ Hb Hl).
  unfold listed_keys. by rewrite dom_empty_L, elements_empty.
Qed.

(** X12: users do not see each other's uploads.  For two different user
    ids without a slash, an upload for one of them, whether it goes through
    or not, leaves the listing of the other exactly as it was when the
    bucket exists already.  When there is no bucket yet, the listing of the
    other user stays as it was or changes from the error NoSuchBucket to
    the empty list, because the upload made the bucket. *)
Theorem upload_keeps_other_listing env env' u1 u2 t p processed w :
  free_of "/" u1 = true → free_of "/" u2 = true → u1 ≠ u2 →
  let before := listing env' w u1 in
  let after := listing env' (MinioClient.upload_video env u2 t p processed w).2 u1 in
  (is_Some (bucket w) → after = before)
  ∧ (bucket w = None →
     after = before
     ∨ (before = Raised (S3Error "NoSuchBucket") ∧ after = Returned [])).
Proof.
  intros H1 H2 Hne before after. subst before after.
  assert (Hother : ∀ x, String.prefix (u1 +:+ "/") (video_key_of u2 t x) = false).
  { intros x. unfold video_key_of. by apply prefix_other_user. }
  destruct (list_objects_ok env') eqn:Hl.
  2: { rewrite !listing_down by done. by split; [|left]. }
  split.
  - intros [objs Hb].
    destruct (upload_video_bucket env u2 t p processed w objs Hb) as [Hb'|[c Hb']].
    { apply listing_same_bucket. by rewrite Hb', Hb. }
    rewrite (listing_bucket env' _ u1 _ Hb' Hl), (listing_bucket env' w u1 objs Hb Hl).
    f_equal. by apply sorted_reverse_of_perm, collect_mp4_perm, listed_keys_insert_other.
  - intros Hb.
    destruct (upload_video_no_bucket env u2 t p processed w Hb) as [Hb'|[Hb'|[c Hb']]].
    + left. apply listing_same_bucket. by rewrite Hb', Hb.
    + right. split; [by apply listing_no_bucket | by apply listing_empty_bucket].
    + right. split; [by apply listing_no_bucket|].
      rewrite (listing_bucket env' _ u1 _ Hb' Hl).
      rewrite <- (listing_empty_bucket env' (with_bucket (Some ∅) w) u1) by done.
      rewrite (listing_bucket env' (with_bucket (Some ∅) w) u1 ∅) by done.
      f_equal. by apply sorted_reverse_of_perm, collect_mp4_perm, listed_keys_insert_other.
Qed.

Lemma upload_keeps_other_listing_witness :
  listing env_up
    (MinioClient.upload_video env_up "u2" "xyz" 1%positive false
       (with_scratch (insert 1%positive "other video") (world_processed DONE))).2 "u1"
  = listing env_up (with_scratch (insert 1%positive "other video") (world_processed DONE)) "u1"
  ∧ listing env_up world_file "u1" = Raised (S3Error "NoSuchBucket")
  ∧ listing env_up
      (MinioClient.upload_video env_up "u2" "xyz" 1%positive false world_file).2 "u1"
    = Returned [].
Proof.
  split; [|split; vm_compute; reflexivity].
  apply (upload_keeps_other_listing env_up env_up "u1" "u2" "xyz" 1%positive false).
  - reflexivity.
  - reflexivity.
  - discriminate.
  - vm_compute. eauto.
Defined.

(** ** The list of videos *)

Lemma dict_has_lookup k d : Video.dict_has k d = bool_decide (is_Some (dict_lookup k d)).
Proof.
  induction d as [|[k' v] d IH]; simpl; [done|].
  by destruct (String.eqb k k').
Qed.

Lemma dict_lookup_keys k d : is_Some (dict_lookup k d) ↔ k ∈ map fst d.
Proof.
  induction d as [|[k' v] d IH]; simpl.
  - split; [by intros [? ?]|by intros ?%elem_of_nil].
  - rewrite elem_of_cons. destruct (String.eqb k k') eqn:Heq.
    + apply String.eqb_eq in Heq. split; eauto.
    + apply String.eqb_neq in Heq. rewrite IH. naive_solver.
Qed.

Lemma dict_lookup_app k d1 d2 :
  dict_lookup k (d1 ++ d2)%list
  = match dict_lookup k d1 with Some v => Some v | None => dict_lookup k d2 end.
Proof.
  induction d1 as [|[k' v] d1 IH]; simpl; [done|]. by destruct (String.eqb k k').
Qed.

Lemma dict_lookup_setdefault k k' v d :
  dict_lookup k' (Video.setdefault k v d)
  = match dict_lookup k' d with
    | Some x => Some x
    | None => if String.eqb k' k then Some v else None
    end.
Proof.
  unfold Video.setdefault. rewrite dict_has_lookup. case_bool_decide as Hk.
  - destruct (dict_lookup k' d) eqn:Hk'; [done|].
    destruct (String.eqb k' k) eqn:Heq; [|done].
    apply String.eqb_eq in Heq. subst. rewrite Hk' in Hk. by destruct Hk.
  - rewrite dict_lookup_app. simpl. done.
Qed.

Lemma dict_lookup_update k k' f d :
  dict_lookup k' (Video.dict_update k f d)
  = if String.eqb k' k then f <$> dict_lookup k' d else dict_lookup k' d.
Proof.
  induction d as [|[k0 v] d IH]; simpl; [by destruct (String.eqb k' k)|].
  destruct (String.eqb k k0) eqn:Hk; simpl.
  - apply String.eqb_eq in Hk. subst k0.
    destruct (String.eqb k' k) eqn:Hk'; done.
  - destruct (String.eqb k' k0) eqn:Hk0; simpl.
    + apply String.eqb_eq in Hk0. subst k0.
      rewrite String.eqb_sym in Hk. by rewrite Hk.
    + done.
Qed.

Lemma keys_update k f d : map fst (Video.dict_update k f d) = map fst d.
Proof.
  induction d as [|[k0 v] d IH]; simpl; [done|].
  destruct (String.eqb k k0); simpl; by rewrite ?IH.
Qed.

Lemma keys_setdefault_NoDup k v d :
  NoDup (map fst d) → NoDup (map fst (Video.setdefault k v d)).
Proof.
  intros Hnd. unfold Video.setdefault. rewrite dict_has_lookup.
  case_bool_decide as Hk; [done|].
  rewrite map_app. simpl. apply NoDup_app. split; [done|]. split; [|apply NoDup_singleton].
  intros x Hx ->%list_elem_of_singleton. apply Hk. by apply dict_lookup_keys.
Qed.

Lemma NoDup_lookup k v d :
  NoDup (map fst d) → (k, v) ∈ d → dict_lookup k d = Some v.
Proof.
  induction d as [|[k0 v0] d IH]; simpl; [by intros _ ?%elem_of_nil|].
  intros [Hk0 Hnd]%NoDup_cons [Heq|Hin]%elem_of_cons.
  - simplify_eq. by rewrite String.eqb_refl.
  - destruct (String.eqb k k0) eqn:Hk; [|by apply IH].
    apply String.eqb_eq in Hk. subst k0. exfalso. apply Hk0.
    apply list_elem_of_fmap. by exists (k, v).
Qed.

Lemma lookup_elem k v d : dict_lookup k d = Some v → (k, v) ∈ d.
Proof.
  induction d as [|[k0 v0] d IH]; simpl; [done|].
  destruct (String.eqb k k0) eqn:Hk.
  - apply String.eqb_eq in Hk. intros [= ->]. subst. by left.
  - intros H. right. by apply IH.
Qed.

Lemma videos_inv_step seen d name :
  videos_inv seen d → videos_inv (seen ++ [name]) (Video.list_videos_step d name).
Proof.
  intros [Hnd Hinv]. unfold Video.list_videos_step. fold (base_name name).
  set (b := base_name name).
  set (v0 := {| Video.ve_task_id := b; Video.has_original := false;
                Video.has_processed := false |}).
  assert (Hkeys : ∀ f, NoDup (map fst (Video.dict_update b f (Video.setdefault b v0 d)))).
  { intros f. rewrite keys_update. by apply keys_setdefault_NoDup. }
  assert (Hlook : ∀ f k,
    dict_lookup k (Video.dict_update b f (Video.setdefault b v0 d))
    = if String.eqb k b
      then Some (f (default v0 (dict_lookup b d)))
      else dict_lookup k d).
  { intros f k. rewrite dict_lookup_update, dict_lookup_setdefault.
    destruct (String.eqb k b) eqn:Hk.
    - apply String.eqb_eq in Hk. subst k. by destruct (dict_lookup b d).
    - by destruct (dict_lookup k d). }
  assert (Hb : ∀ k, match dict_lookup k d with
                    | Some v => Video.ve_task_id v = k
                    | None => True end).
  { intros k. specialize (Hinv k). destruct (dict_lookup k d); naive_solver. }
  assert (Hv0 : dict_lookup b d = None → ∀ n, n ∈ seen → base_name n ≠ b).
  { intros Hn. specialize (Hinv b). by rewrite Hn in Hinv. }
  destruct (endswith name "_processed") eqn:He; (split; [apply Hkeys|]); intros k;
    rewrite Hlook; destruct (String.eqb k b) eqn:Hk.
  - apply String.eqb_eq in Hk. subst k. specialize (Hinv b). specialize (Hb b).
    destruct (dict_lookup b d) as [x|] eqn:Hx; simpl.
    + destruct Hinv as (Hid & Hp & Ho). split; [done|]. split.
      * split; [|done]. intros _. exists name. rewrite elem_of_app, list_elem_of_singleton.
        auto.
      * rewrite Ho. split; intros (n & Hn & Hbn & Hen).
        -- exists n. rewrite elem_of_app. auto.
        -- apply elem_of_app in Hn as [Hn|Hn%list_elem_of_singleton]; [eauto|].
           subst n. congruence.
    + split; [done|]. split.
      * split; [|done]. intros _. exists name. rewrite elem_of_app, list_elem_of_singleton.
        auto.
      * split; [done|]. intros (n & Hn & Hbn & Hen).
        apply elem_of_app in Hn as [Hn|Hn%list_elem_of_singleton].
        -- exfalso. by apply (Hinv n Hn).
        -- subst n. congruence.
  - apply String.eqb_neq in Hk. specialize (Hinv k).
    destruct (dict_lookup k d) as [x|].
    + destruct Hinv as (Hid & Hp & Ho). split; [done|]. rewrite Hp, Ho.
      split; split; intros (n & Hn & Hbn & Hen); exists n;
        rewrite ?elem_of_app in *; rewrite ?list_elem_of_singleton in *;
        (destruct Hn as [Hn| ->] || idtac); try done; auto; subst b; congruence.
    + intros n [Hn| ->%list_elem_of_singleton]%elem_of_app; [by apply Hinv|].
      subst b. congruence.
  - apply String.eqb_eq in Hk. subst k. specialize (Hinv b). specialize (Hb b).
    destruct (dict_lookup b d) as [x|] eqn:Hx; simpl.
    + destruct Hinv as (Hid & Hp & Ho). split; [done|]. split.
      * rewrite Hp. split; intros (n & Hn & Hbn & Hen).
        -- exists n. rewrite elem_of_app. auto.
        -- apply elem_of_app in Hn as [Hn|Hn%list_elem_of_singleton]; [eauto|].
           subst n. congruence.
      * split; [|done]. intros _. exists name. rewrite elem_of_app, list_elem_of_singleton.
        auto.
    + split; [done|]. split.
      * split; [done|]. intros (n & Hn & Hbn & Hen).
        apply elem_of_app in Hn as [Hn|Hn%list_elem_of_singleton].
        -- exfalso. by apply (Hinv n Hn).
        -- subst n. congruence.
      * split; [|done]. intros _. exists name. rewrite elem_of_app, list_elem_of_singleton.
        auto.
  - apply String.eqb_neq in Hk. specialize (Hinv k).
    destruct (dict_lookup k d) as [x|].
    + destruct Hinv as (Hid & Hp & Ho). split; [done|]. rewrite Hp, Ho.
      split; split; intros (n & Hn & Hbn & Hen); exists n;
        rewrite ?elem_of_app in *; rewrite ?list_elem_of_singleton in *;
        (destruct Hn as [Hn| ->] || idtac); try done; auto; subst b; congruence.
    + intros n [Hn| ->%list_elem_of_singleton]%elem_of_app; [by apply Hinv|].
      subst b. congruence.
Qed.

Lemma videos_inv_fold names seen d :
  videos_inv seen d →
  videos_inv (seen ++ names) (fold_left Video.list_videos_step names d).
Proof.
  revert seen d. induction names as [|name names IH]; intros seen d Hinv; simpl.
  - by rewrite app_nil_r.
  - replace (seen ++ name :: names)%list with ((seen ++ [name]) ++ names)%list
      by by rewrite <- app_assoc.
    apply IH. by apply videos_inv_step.
Qed.

Lemma videos_inv_nil : videos_inv [] [].
Proof. split; [constructor|]. intros k. simpl. by intros name ?%elem_of_nil. Qed.

(** X13: [list_videos] returns one entry per task id, where the task id of
    a listed name is the name without "_processed".  Every listed name has
    its entry; an entry has [has_processed] exactly when a listed name of
    its task ends in "_processed", and [has_original] exactly when one does
    not. *)
Theorem list_videos_entries env u w names :
  listing env w u = Returned names →
  ∃ entries,
    (Video.list_videos env u w).1 = Returned entries
    ∧ NoDup (map Video.ve_task_id entries)
    ∧ (∀ name, name ∈ names →
         ∃ e, e ∈ entries ∧ Video.ve_task_id e = base_name name)
    ∧ ∀ e, e ∈ entries →
        (Video.has_processed e = true ↔
         ∃ name, name ∈ names ∧ base_name name = Video.ve_task_id e
                 ∧ endswith name "_processed" = true)
        ∧ (Video.has_original e = true ↔
           ∃ name, name ∈ names ∧ base_name name = Video.ve_task_id e
                   ∧ endswith name "_processed" = false).
Proof.
  intros Hl. unfold Video.list_videos. unfold mbind, M_bind.
  rewrite list_user_videos_pure, Hl. simpl.
  set (d := fold_left Video.list_videos_step names []).
  destruct (videos_inv_fold names [] [] videos_inv_nil) as [Hnd Hinv].
  simpl in Hnd, Hinv. fold d in Hnd, Hinv.
  assert (Hpair : ∀ k v, (k, v) ∈ d → Video.ve_task_id v = k).
  { intros k v Hin. specialize (Hinv k). rewrite (NoDup_lookup k v d Hnd Hin) in Hinv.
    by destruct Hinv. }
  assert (Hids : map Video.ve_task_id (map snd d) = map fst d).
  { rewrite map_map. apply map_ext_in. intros [k v] Hin. simpl.
    apply Hpair. by apply list_elem_of_In. }
  exists (map snd d). split; [done|]. split; [by rewrite Hids|]. split.
  - intros name Hn. specialize (Hinv (base_name name)).
    destruct (dict_lookup (base_name name) d) as [v|] eqn:Hv.
    + exists v. split; [|by destruct Hinv].
      apply list_elem_of_fmap. exists (base_name name, v). split; [done|].
      by apply lookup_elem.
    + exfalso. by apply (Hinv name Hn).
  - intros e [[k v] [-> Hin]]%list_elem_of_fmap. simpl.
    specialize (Hinv k). rewrite (NoDup_lookup k v d Hnd Hin) in Hinv.
    destruct Hinv as (-> & Hp & Ho). done.
Qed.

Lemma list_videos_entries_witness :
  ∃ entries,
    (Video.list_videos env_up "u1" (world_processed DONE)).1 = Returned entries
    ∧ NoDup (map Video.ve_task_id entries)
    ∧ (∀ name, name ∈ ["abc_processed"; "abc"] →
         ∃ e, e ∈ entries ∧ Video.ve_task_id e = base_name name)
    ∧ ∀ e, e ∈ entries →
        (Video.has_processed e = true ↔
         ∃ name, name ∈ ["abc_processed"; "abc"] ∧ base_name name = Video.ve_task_id e
                 ∧ endswith name "_processed" = true)
        ∧ (Video.has_original e = true ↔
           ∃ name, name ∈ ["abc_processed"; "abc"] ∧ base_name name = Video.ve_task_id e
                   ∧ endswith name "_processed" = false).
Proof.
  apply (list_videos_entries env_up "u1" (world_processed DONE)).
  vm_compute; reflexivity.
Defined.

(** X14: [list_videos] changes nothing and, unlike the status query, passes
    an error of the listing on to the caller; before the bucket exists that
    error is NoSuchBucket. *)
Theorem list_videos_propagates env u w :
  let r := Video.list_videos env u w in
  r.2 = w
  ∧ (∀ e, listing env w u = Raised e → r.1 = Raised e)
  ∧ (bucket w = None → list_objects_ok env = true → r.1 = Raised (S3Error "NoSuchBucket"))
  ∧ (∀ names, listing env w u = Returned names →
       r.1 = Returned (map snd (fold_left Video.list_videos_step names []))).
Proof.
  unfold Video.list_videos. unfold mbind, M_bind. rewrite list_user_videos_pure.
  simpl. repeat split.
  - by destruct (listing env w u).
  - intros e ->. done.
  - intros Hb Hl. unfold listing, MinioClient.list_user_videos, MinioClient.list_objects.
    rewrite Hl. run_M. by rewrite Hb.
  - intros names ->. done.
Qed.

(** ** Submission *)

(** X15: what [generate_video] does with an answer of the provider that is
    a JSON object.  When its data is absent or an object, and the task id
    under it is absent, null, or empty, the handler raises the HTTPException
    with status 502; when its data is anything but an object, null for
    one, the handler raises AttributeError instead.  Either way it registers
    nothing. *)
Theorem generate_video_without_task_id env prompt u w fields :
  kie_post env prompt = Returned (JObj fields) →
  let r := Video.generate_video env prompt u w in
  match assoc "data" fields with
  | None => r = (Raised (HTTPException 502 "No taskId"), w)
  | Some (JObj d) =>
      match assoc "taskId" d with
      | None => r = (Raised (HTTPException 502 "No taskId"), w)
      | Some task_id =>
          truthy task_id = false → r = (Raised (HTTPException 502 "No taskId"), w)
      end
  | Some _ => r = (Raised AttributeError, w)
  end.
Proof.
  intros Hk. unfold Video.generate_video. unfold_M. rewrite Hk. simpl.
  destruct (assoc "data" fields) as [[|x|l|d]|]; simpl; try done.
  destruct (assoc "taskId" d) as [task_id|]; simpl; [|done].
  by intros ->.
Qed.

Lemma generate_video_without_task_id_witness :
  Video.generate_video env_no_task_id "a cat surfing" "u1" (world_abc QUEUED)
  = (Raised (HTTPException 502 "No taskId"), world_abc QUEUED)
  ∧ Video.generate_video env_data_null "a cat surfing" "u1" (world_abc QUEUED)
    = (Raised AttributeError, world_abc QUEUED).
Proof.
  split.
  - apply (generate_video_without_task_id env_no_task_id "a cat surfing" "u1"
             (world_abc QUEUED) [("data", JObj [])]). reflexivity.
  - apply (generate_video_without_task_id env_data_null "a cat surfing" "u1"
             (world_abc QUEUED) [("code", JStr "500"); ("data", JNull)]). reflexivity.
Defined.

(** X16: a submission that returns reports QUEUED and has registered the
    task for its caller; a status query right after it reports QUEUED as
    long as the check finds no processed video, and DONE once it does. *)
Theorem submit_then_query env env' prompt u w tid st :
  (Video.generate_video env prompt u w).1 = Returned (Video.TaskStatus tid st) →
  let w' := (Video.generate_video env prompt u w).2 in
  st = QUEUED
  ∧ TASKS w' !! tid = Some {| status := QUEUED; user_id := u |}
  ∧ (processed_listed env' w' u tid = false →
     Video.get_status env' tid w' = (Returned (Video.TaskStatus tid QUEUED), w'))
  ∧ (processed_listed env' w' u tid = true →
     (Video.get_status env' tid w').1 = Returned (Video.TaskStatus tid DONE)).
Proof.
  pose proof (generate_video_spec env prompt u w) as H.
  destruct (submitted_id env prompt) as [tid0|].
  2: { destruct H as [e ->]. done. }
  rewrite H. simpl. intros [= <- <-]. split; [done|].
  assert (Ht : TASKS (with_TASKS (insert tid0 {| status := QUEUED; user_id := u |}) w) !! tid0
               = Some {| status := QUEUED; user_id := u |}) by apply lookup_insert_eq.
  split; [done|]. split; intros Hl.
  - rewrite (get_status_known env' _ tid0 _ Ht) by done. simpl. by rewrite Hl.
  - rewrite (get_status_known env' _ tid0 _ Ht) by done. simpl. by rewrite Hl.
Qed.

Lemma submit_then_query_witness :
  let w' := (Video.generate_video env_up "a cat surfing" "u1" world_file).2 in
  TASKS w' !! "abc" = Some {| status := QUEUED; user_id := "u1" |}.
Proof.
  pose proof (submit_then_query env_up env_up "a cat surfing" "u1" world_file "abc" QUEUED)
    as H.
  destruct H as (_ & H & _); [vm_compute; reflexivity | exact H].
Defined.

(** ** The metadata store *)

Lemma rowcount_has_key k table : Ai.rowcount k table = 0 ↔ Ai.has_key k table = false.
Proof.
  unfold Ai.rowcount, Ai.has_key. induction table as [|r table IH]; simpl; [done|].
  destruct (String.eqb (Ai.video_key r) k); simpl; [done|]. by rewrite IH.
Qed.

Lemma keys_update_uploaded s k yid table :
  map Ai.video_key (Ai.update_uploaded s k yid table) = map Ai.video_key table.
Proof.
  unfold Ai.update_uploaded. rewrite map_map. apply map_ext. intros r.
  by destruct (String.eqb (Ai.video_key r) k).
Qed.

Lemma insert_final_video_new_row s k u ttl d table :
  session_ok s = true → Ai.has_key k table = false →
  ∃ row, Ai.insert_final_video s k u ttl d table = (Returned (), (table ++ [row])%list)
         ∧ Ai.video_key row = k ∧ Ai.fv_user_id row = u ∧ Ai.title row = ttl.
Proof.
  unfold Ai.insert_final_video, Ai.insert_on_conflict_do_nothing, session_ok.
  intros [-> ->]%andb_prop ->. eexists. split; [done|]. done.
Qed.

Lemma mark_youtube_uploaded_returns s k yid table :
  session_ok s = true → Ai.has_key k table = true →
  Ai.mark_youtube_uploaded s k yid table = (Returned (), Ai.update_uploaded s k yid table).
Proof.
  unfold Ai.mark_youtube_uploaded, session_ok. intros [-> ->]%andb_prop Hk.
  destruct (Nat.eqb (Ai.rowcount k table) 0) eqn:Hc; [|done].
  apply Nat.eqb_eq, rowcount_has_key in Hc. congruence.
Qed.

Lemma insert_by_selected_at_perm r l : Ai.insert_by_selected_at r l ≡ₚ r :: l.
Proof.
  induction l as [|r' l IH]; simpl; [done|].
  destruct (Z.ltb _ _); [done|]. rewrite IH. apply Permutation_swap.
Qed.

Lemma order_by_perm l : Ai.order_by_selected_at_desc l ≡ₚ l.
Proof.
  unfold Ai.order_by_selected_at_desc. induction l as [|r l IH]; simpl; [done|].
  by rewrite insert_by_selected_at_perm, IH.
Qed.

Lemma insert_by_selected_at_sorted r l :
  Sorted newest_first l → Sorted newest_first (Ai.insert_by_selected_at r l).
Proof.
  induction 1 as [|r' l Hs IH Hhd]; simpl; [by repeat constructor|].
  destruct (Z.ltb_spec (Ai.lr_selected_at r') (Ai.lr_selected_at r)) as [Hlt|Hge].
  - constructor; [by constructor|]. constructor. unfold newest_first. lia.
  - constructor; [done|]. destruct l as [|r'' l]; simpl.
    + by constructor.
    + destruct (Z.ltb _ _); constructor; [done|]. by inversion Hhd.
Qed.

(** X17: [insert_final_video] never changes or removes a row: the table
    before is a prefix of the table after.  With the key already present the
    table stays as it is, so the first record under a key wins; with a
    failing session the call raises RuntimeError, with the text of the
    database error after "[ai] insert_final_video failed: ", and the table
    is unchanged; otherwise one row with the given fields, not yet uploaded,
    is added. *)
Theorem insert_final_video_keeps_rows s k u ttl d table :
  let r := Ai.insert_final_video s k u ttl d table in
  table `prefix_of` r.2
  ∧ (Ai.has_key k table = true → r.2 = table)
  ∧ (session_ok s = false →
     r = (Raised (RuntimeError ("[ai] insert_final_video failed: " +:+ Ai.error_text s)),
          table))
  ∧ (session_ok s = true → Ai.has_key k table = false →
     ∃ row, r = (Returned (), (table ++ [row])%list)
            ∧ Ai.video_key row = k ∧ Ai.fv_user_id row = u ∧ Ai.title row = ttl
            ∧ Ai.description row = d ∧ Ai.youtube_uploaded row = false).
Proof.
  unfold Ai.insert_final_video, Ai.insert_on_conflict_do_nothing, session_ok.
  destruct (Ai.execute_ok s), (Ai.commit_ok s), (Ai.has_key k table); simpl;
    repeat split; try done; try (by eexists); try (intros; eexists; split; [done|]; done).
Qed.


(** X19: when [mark_youtube_uploaded] returns, the key had a row, the keys
    and the owners of all rows are as before, every row with the key is
    marked uploaded with the given YouTube id, and the rows with other keys
    are untouched. *)
Theorem mark_youtube_uploaded_effect s k yid table :
  (Ai.mark_youtube_uploaded s k yid table).1 = Returned () →
  let table' := (Ai.mark_youtube_uploaded s k yid table).2 in
  Ai.has_key k table = true
  ∧ map Ai.video_key table' = map Ai.video_key table
  ∧ map Ai.fv_user_id table' = map Ai.fv_user_id table
  ∧ (∀ row, row ∈ table' → Ai.video_key row = k →
       Ai.youtube_uploaded row = true ∧ Ai.youtube_video_id row = Some yid)
  ∧ (∀ row, Ai.video_key row ≠ k → row ∈ table' ↔ row ∈ table).
Proof.
  unfold Ai.mark_youtube_uploaded.
  destruct (Ai.execute_ok s); simpl; [|done].
  destruct (Nat.eqb (Ai.rowcount k table) 0) eqn:Hc; [done|].
  apply Nat.eqb_neq in Hc. rewrite rowcount_has_key in Hc.
  destruct (Ai.commit_ok s); simpl; [|done]. intros _.
  split; [by destruct (Ai.has_key k table)|].
  split; [apply keys_update_uploaded|]. split.
  { unfold Ai.update_uploaded. rewrite map_map. apply map_ext. intros r.
    by destruct (String.eqb (Ai.video_key r) k). }
  unfold Ai.update_uploaded. split.
  - intros row [r [-> Hr]]%list_elem_of_fmap Hk.
    destruct (String.eqb (Ai.video_key r) k) eqn:Heq; [done|].
    apply String.eqb_neq in Heq. done.
  - intros row Hk. split.
    + intros [r [-> Hr]]%list_elem_of_fmap.
      destruct (String.eqb (Ai.video_key r) k) eqn:Heq; [|done].
      apply String.eqb_eq in Heq. done.
    + intros Hr. apply list_elem_of_fmap. exists row. split; [|done].
      apply String.eqb_neq in Hk. by rewrite Hk.
Qed.

Lemma mark_youtube_uploaded_effect_witness :
  let table' := (Ai.mark_youtube_uploaded session_up "u1/abc_processed.mp4" "yt1"
                   [row_abc]).2 in
  Ai.has_key "u1/abc_processed.mp4" [row_abc] = true
  ∧ map Ai.video_key table' = map Ai.video_key [row_abc].
Proof.
  pose proof (mark_youtube_uploaded_effect session_up "u1/abc_processed.mp4" "yt1"
                [row_abc]) as H.
  destruct H as (H1 & H2 & _); [reflexivity|]. split; [exact H1 | exact H2].
Defined.

(** X20: [get_user_library] returns the rows of the asked user and no
    others, each once, newest selection first. *)
Theorem get_user_library_newest_first s u table rows :
  Ai.get_user_library s u table = Returned rows →
  Sorted newest_first rows
  ∧ rows ≡ₚ map Ai.library_row
              (List.filter (λ r, String.eqb (Ai.fv_user_id r) u) table).
Proof.
  unfold Ai.get_user_library. destruct (Ai.execute_ok s); [|done].
  intros [= <-]. split; [|apply order_by_perm].
  unfold Ai.order_by_selected_at_desc.
  induction (map Ai.library_row _) as [|r l IH]; simpl; [constructor|].
  by apply insert_by_selected_at_sorted.
Qed.

Lemma get_user_library_newest_first_witness :
  Ai.get_user_library session_up "u1" [row_abc; row_u2; row_xyz]
  = Returned [Ai.library_row row_xyz; Ai.library_row row_abc]
  ∧ Sorted newest_first [Ai.library_row row_xyz; Ai.library_row row_abc]
  ∧ [Ai.library_row row_xyz; Ai.library_row row_abc]
    ≡ₚ map Ai.library_row
         (List.filter (λ r, String.eqb (Ai.fv_user_id r) "u1") [row_abc; row_u2; row_xyz]).
Proof.
  assert (H : Ai.get_user_library session_up "u1" [row_abc; row_u2; row_xyz]
              = Returned [Ai.library_row row_xyz; Ai.library_row row_abc]) by reflexivity.
  split; [exact H|].
  exact (get_user_library_newest_first session_up "u1" [row_abc; row_u2; row_xyz] _ H).
Defined.

(** X21: a final video inserted for one user never shows up in, or changes,
    the library of another user. *)
Theorem insert_keeps_other_library s s' k u u' ttl d table :
  u ≠ u' →
  Ai.get_user_library s' u' (Ai.insert_final_video s k u ttl d table).2
  = Ai.get_user_library s' u' table.
Proof.
  intros Hne. unfold Ai.insert_final_video, Ai.insert_on_conflict_do_nothing.
  destruct (Ai.execute_ok s), (Ai.commit_ok s), (Ai.has_key k table); simpl; try done.
  unfold Ai.get_user_library. destruct (Ai.execute_ok s'); [|done].
  rewrite List.filter_app. simpl.
  apply String.eqb_neq in Hne. rewrite Hne. by rewrite app_nil_r.
Qed.

Lemma insert_keeps_other_library_witness :
  Ai.get_user_library session_up "u1"
    (Ai.insert_final_video session_up "u2/xyz.mp4" "u2" None None [row_abc]).2
  = Ai.get_user_library session_up "u1" [row_abc].
Proof.
  apply (insert_keeps_other_library session_up session_up "u2/xyz.mp4" "u2" "u1").
  discriminate.
Defined.


(** X23: the three operations compose.  A video finalized under a new key
    and then marked as uploaded appears in the library of its user with its
    title, the uploaded flag, the YouTube id and the time of the upload. *)
Theorem finalize_publish_library s1 s2 s3 k u ttl d yid table :
  Ai.has_key k table = false →
  session_ok s1 = true → session_ok s2 = true → Ai.execute_ok s3 = true →
  let t1 := (Ai.insert_final_video s1 k u ttl d table).2 in
  let r2 := Ai.mark_youtube_uploaded s2 k yid t1 in
  r2.1 = Returned ()
  ∧ ∃ rows row,
      Ai.get_user_library s3 u r2.2 = Returned rows
      ∧ row ∈ rows
      ∧ Ai.lr_video_key row = k ∧ Ai.lr_title row = ttl
      ∧ Ai.lr_youtube_uploaded row = true
      ∧ Ai.lr_youtube_video_id row = Some yid
      ∧ Ai.lr_youtube_uploaded_at row = Some (Ai.now s2).
Proof.
  intros Hk H1 H2 H3 t1 r2.
  destruct (insert_final_video_new_row s1 k u ttl d table H1 Hk)
    as (row0 & Hr & Hkey & Hu & Httl).
  assert (Ht1 : t1 = (table ++ [row0])%list) by (subst t1; by rewrite Hr).
  assert (Hhas : Ai.has_key k t1 = true).
  { rewrite Ht1. unfold Ai.has_key. rewrite existsb_app. simpl.
    by rewrite Hkey, String.eqb_refl, orb_true_r. }
  assert (Hr2 : r2 = (Returned (), Ai.update_uploaded s2 k yid t1))
    by (by apply mark_youtube_uploaded_returns).
  rewrite Hr2. simpl. split; [done|].
  set (marked := {| Ai.video_key := Ai.video_key row0; Ai.fv_user_id := Ai.fv_user_id row0;
                    Ai.title := Ai.title row0; Ai.description := Ai.description row0;
                    Ai.selected_at := Ai.selected_at row0;
                    Ai.youtube_uploaded := true; Ai.youtube_video_id := Some yid;
                    Ai.youtube_uploaded_at := Some (Ai.now s2) |}).
  unfold Ai.get_user_library. rewrite H3.
  eexists. exists (Ai.library_row marked). split; [done|]. split; [|done].
  rewrite order_by_perm. apply list_elem_of_fmap. exists marked. split; [done|].
  apply list_elem_of_In, List.filter_In. split.
  - apply list_elem_of_In. rewrite Ht1. unfold Ai.update_uploaded.
    rewrite map_app. apply elem_of_app. right. simpl.
    destruct (String.eqb (Ai.video_key row0) k) eqn:Heq; [by left|].
    by apply String.eqb_neq in Heq.
  - simpl. by rewrite Hu, String.eqb_refl.
Qed.

Lemma finalize_publish_library_witness :
  let t1 := (Ai.insert_final_video session_up "u1/abc_processed.mp4" "u1"
               (Some "cat") None []).2 in
  (Ai.mark_youtube_uploaded session_up "u1/abc_processed.mp4" "yt1" t1).1 = Returned ().
Proof.
  pose proof (finalize_publish_library session_up session_up session_up
                "u1/abc_processed.mp4" "u1" (Some "cat") None "yt1" []) as H.
  destruct H as (H & _); [reflexivity..|exact H].
Defined.
